(** * AD LDAP connector: a shallow embedding of [adldap_connector.py]

    The connector class [AdLdapConnector] exposes directory operations as
    actions.  Every method of the class is embedded below as a computation in
    a state-and-exception monad:

    - the state holds what the Python object holds ([self._ldap_connection],
      the action results registered with [add_action_result]) together with
      the history of calls made into the [ldap3] library;
    - the [ldap3] library and the directory server behind it are an
      environment [Env]: what a call raises or returns, and what the
      connection's attributes read as, are functions of the call history;
    - a Python exception is the [Raise] outcome; [try ... except Exception]
      is [try_catch].

    Host facilities that only log ([save_progress], [debug_print]) have no
    counterpart here. *)

From Stdlib Require Import ZArith Lia Ascii.
From stdpp Require Import gmap strings list pretty.

Set Warnings "-clear-no-such-hyp".

Local Open Scope string_scope.
Local Open Scope list_scope.
Local Open Scope Z_scope.

(** ** Python values and strings *)

(** Values found in an action's parameter dictionary (decoded JSON). *)
Inductive PVal :=
| PStr (s : string)
| PBool (b : bool)
| PInt (z : Z).

#[global] Instance PVal_eq_dec : EqDecision PVal.
Proof. solve_decision. Defined.

(** Python truthiness, as used by [if param.get(...)]. *)
Definition truthy (v : PVal) : bool :=
  match v with
  | PStr s => negb (String.eqb s "")
  | PBool b => b
  | PInt z => negb (Z.eqb z 0)
  end.

(** [str(v)], as produced by ["{}".format(v)]. *)
Definition py_str (v : PVal) : string :=
  match v with
  | PStr s => s
  | PBool true => "True"
  | PBool false => "False"
  | PInt z => pretty z
  end.

(** A Python [str] is modelled by its UTF-8 encoding: a [string] is the
    sequence of the encoded bytes.  The whitespace that [str.strip()]
    removes is the set of code points for which [str.isspace()] holds; it is
    given here by encoded length.  One byte: U+0009 to U+000D and U+001C to
    U+0020. *)
Definition is_space (c : ascii) : bool :=
  let n := nat_of_ascii c in
  ((Nat.leb 9 n && Nat.leb n 13) || (Nat.leb 28 n && Nat.leb n 32))%bool.

(** Two bytes: U+0085 ([C2 85]) and U+00A0 ([C2 A0]). *)
Definition is_space2 (c1 c2 : ascii) : bool :=
  let n1 := nat_of_ascii c1 in
  let n2 := nat_of_ascii c2 in
  (Nat.eqb n1 0xC2 && (Nat.eqb n2 0x85 || Nat.eqb n2 0xA0))%bool.

(** Three bytes: U+1680 ([E1 9A 80]), U+2000 to U+200A ([E2 80 80] to
    [E2 80 8A]), U+2028, U+2029, U+202F ([E2 80 A8], [E2 80 A9], [E2 80 AF]),
    U+205F ([E2 81 9F]) and U+3000 ([E3 80 80]). *)
Definition is_space3 (c1 c2 c3 : ascii) : bool :=
  let n1 := nat_of_ascii c1 in
  let n2 := nat_of_ascii c2 in
  let n3 := nat_of_ascii c3 in
  ((Nat.eqb n1 0xE1 && Nat.eqb n2 0x9A && Nat.eqb n3 0x80)
   || (Nat.eqb n1 0xE2 && Nat.eqb n2 0x80
       && ((Nat.leb 0x80 n3 && Nat.leb n3 0x8A)
           || Nat.eqb n3 0xA8 || Nat.eqb n3 0xA9 || Nat.eqb n3 0xAF))
   || (Nat.eqb n1 0xE2 && Nat.eqb n2 0x81 && Nat.eqb n3 0x9F)
   || (Nat.eqb n1 0xE3 && Nat.eqb n2 0x80 && Nat.eqb n3 0x80))%bool.

(** Whitespace characters are dropped from the front, whatever their encoded
    length; [sp1], [sp2] and [sp3] recognise them. *)
Fixpoint lstrip_with (sp1 : ascii → bool) (sp2 : ascii → ascii → bool)
    (sp3 : ascii → ascii → ascii → bool) (s : string) : string :=
  match s with
  | EmptyString => EmptyString
  | String c1 s1 =>
      if sp1 c1 then lstrip_with sp1 sp2 sp3 s1
      else
        match s1 with
        | EmptyString => s
        | String c2 s2 =>
            if sp2 c1 c2 then lstrip_with sp1 sp2 sp3 s2
            else
              match s2 with
              | EmptyString => s
              | String c3 s3 =>
                  if sp3 c1 c2 c3 then lstrip_with sp1 sp2 sp3 s3 else s
              end
        end
  end.

Definition lstrip (s : string) : string :=
  lstrip_with is_space is_space2 is_space3 s.

(** From the back the bytes of a character are met last byte first. *)
Definition rstrip (s : string) : string :=
  String.rev
    (lstrip_with is_space (λ c2 c1, is_space2 c1 c2)
       (λ c3 c2 c1, is_space3 c1 c2 c3) (String.rev s)).

Definition strip (s : string) : string := rstrip (lstrip s).

(** [s.split(sep)] for a one-character separator: never the empty list. *)
Fixpoint split (sep : ascii) (s : string) : list string :=
  match s with
  | EmptyString => [EmptyString]
  | String c s' =>
      if Ascii.eqb c sep then EmptyString :: split sep s'
      else match split sep s' with
           | w :: ws => String c w :: ws
           | [] => [String c EmptyString]
           end
  end.

(** [[i.strip() for i in s.split(';')]] *)
Definition split_strip (s : string) : list string :=
  strip <$> split ";"%char s.

(** ** Exceptions *)

Inductive Exn :=
| LDAPSocketOpenError (msg : string)
| LDAPException (msg : string)
| KeyError (key : string)
| IndexError
| AttributeError (msg : string)
| TypeError (msg : string)
| UnboundLocalError (var : string).

Definition exn_str (e : Exn) : string :=
  match e with
  | LDAPSocketOpenError m | LDAPException m | AttributeError m | TypeError m => m
  | KeyError k => "'" +:+ k +:+ "'"
  | IndexError => "list index out of range"
  | UnboundLocalError v =>
      "local variable '" +:+ v +:+ "' referenced before assignment"
  end.

Definition is_socket_open_error (e : Exn) : bool :=
  match e with LDAPSocketOpenError _ => true | _ => false end.

(** ** Directory data *)

(** The attributes of a search hit that the connector reads.  [None] is a
    missing key (reading it raises). *)
Record Attrs := mkAttrs {
  sAMAccountName : option string;
  distinguishedName : option string;
  userAccountControl : option Z;
}.

(** One element of [connection.response]. *)
Record Item := mkItem {
  i_type : option string;
  i_attributes : option Attrs;
}.

(** One element of the ['entries'] list of [response_to_json()]. *)
Record Entry := mkEntry {
  e_dn : string;
  e_attributes : option Attrs;
}.

Inductive ModKind := MODIFY_ADD | MODIFY_DELETE | MODIFY_REPLACE.

(** A [changes] dictionary for [Connection.modify]: the connector builds it
    with at most one key. *)
Definition Changes := list (PVal * (ModKind * list PVal)).

(** Calls into [ldap3], with the arguments the connector passes. *)
Inductive Op :=
| OpUnbind
| OpServer
| OpConnection
| OpBind
| OpSearch (search_base : PVal) (search_filter : PVal) (attributes : list string)
| OpModify (dn : PVal) (changes : Changes)
| OpModifyDn (dn : PVal) (relative_dn : string) (new_superior : PVal)
| OpAddMembers (members_dn groups_dn : list string)
| OpRemoveMembers (members_dn groups_dn : list string)
| OpUnlock (user_dn : option string)   (* [None] is Python's [False] *)
| OpModifyPassword (user new_password : PVal).

(** Calls that only manage the session. *)
Definition is_conn_op (o : Op) : bool :=
  match o with
  | OpUnbind | OpServer | OpConnection | OpBind => true
  | _ => false
  end.

Definition is_search_op (o : Op) : bool :=
  match o with OpSearch _ _ _ => true | _ => false end.

Definition is_group_op (o : Op) : bool :=
  match o with OpAddMembers _ _ | OpRemoveMembers _ _ => true | _ => false end.

Definition is_unlock_op (o : Op) : bool :=
  match o with OpUnlock _ => true | _ => false end.

Definition is_modify_op (o : Op) : bool :=
  match o with OpModify _ _ => true | _ => false end.

Definition is_modify_dn_op (o : Op) : bool :=
  match o with OpModifyDn _ _ _ => true | _ => false end.

(** ** Action results *)

Inductive DataRec :=
| DGroup (member group function : string)
| DModified (ret : bool)
| DReset (reset : bool)
| DJson (entries : list Entry).

Inductive SumVal := SInt (n : nat) | SStr (s : string).

(** [phantom.action_result.ActionResult]: [ar_status] is [None] until
    [set_status] is called; [Some true] is [APP_SUCCESS] (Python's [True]),
    [Some false] is [APP_ERROR] (Python's [False]).  The object itself is
    truthy, so [if action_result:] tests whether one was passed. *)
Record ActionResult := mkAR {
  ar_param : gmap string PVal;
  ar_status : option bool;
  ar_message : string;
  ar_exception : option Exn;
  ar_data : list DataRec;
  ar_summary : gmap string SumVal;
}.

Definition new_action_result (param : gmap string PVal) : ActionResult :=
  mkAR param None "" None [] ∅.

(** What a handler hands back to [handle_action]: nothing, a bare status, or
    a [RetVal(status)] tuple. *)
Inductive PyRet :=
| PNone
| PStatus (b : bool)
| PRetVal (val1 : bool).

(** ** Connector state *)

Record State := mkState {
  ldap_connection : bool;              (* [self._ldap_connection is not None] *)
  action_results : list ActionResult;  (* in order of [add_action_result] *)
  trace : list Op;                     (* calls into ldap3 so far *)
}.

Definition initialize : State := mkState false [] [].

(** ** The state-and-exception monad *)

Inductive Res (A : Type) :=
| Ok (a : A)
| Raise (e : Exn).
Arguments Ok {A} a.
Arguments Raise {A} e.

Definition M (A : Type) : Type := State → Res A * State.

Definition ret {A} (a : A) : M A := λ s, (Ok a, s).

Definition raise {A} (e : Exn) : M A := λ s, (Raise e, s).

Definition bind {A B} (m : M A) (k : A → M B) : M B :=
  λ s, match m s with
       | (Ok a, s') => k a s'
       | (Raise e, s') => (Raise e, s')
       end.

(** [try: m except Exception as e: h e] *)
Definition try_catch {A} (m : M A) (h : Exn → M A) : M A :=
  λ s, match m s with
       | (Ok a, s') => (Ok a, s')
       | (Raise e, s') => h e s'
       end.

Definition lift {A} (r : Res A) : M A := λ s, (r, s).

Notation "'do' x <- c1 ; c2" := (bind c1 (λ x, c2))
  (at level 20, x name, c1 at level 100, c2 at level 200).
Notation "'do' ' p <- c1 ; c2" := (bind c1 (λ x, match x with p => c2 end))
  (at level 20, p pattern, c1 at level 100, c2 at level 200).

(** A statement inside a function either falls through with a value or
    executes [return]. *)
Inductive Flow (A : Type) :=
| Continue (a : A)
| Return (r : PyRet).
Arguments Continue {A} a.
Arguments Return {A} r.

(** [for x in xs: body x] *)
Fixpoint for_each {A} (xs : list A) (body : A → M unit) : M unit :=
  match xs with
  | [] => ret tt
  | x :: xs' => do _ <- body x; for_each xs' body
  end.

(** ** Python dictionaries that are iterated over

    Insertion-ordered association lists: [dict_set] keeps the position of a
    key that is already present. *)
Section dict.
Context {K V : Type} `{EqDecision K}.

Fixpoint dict_get (d : list (K * V)) (k : K) : option V :=
  match d with
  | [] => None
  | (k', v) :: d' => if decide (k' = k) then Some v else dict_get d' k
  end.

Fixpoint dict_set (d : list (K * V)) (k : K) (v : V) : list (K * V) :=
  match d with
  | [] => [(k, v)]
  | (k', v') :: d' =>
      if decide (k' = k) then (k', v) :: d' else (k', v') :: dict_set d' k v
  end.

Definition dict_mem (d : list (K * V)) (k : K) : bool :=
  bool_decide (is_Some (dict_get d k)).

(** [{k: v for k in ks}] *)
Definition dict_from_keys (ks : list K) (v : V) : list (K * V) :=
  foldl (λ d k, dict_set d k v) [] ks.
End dict.

(** ** The ldap3 library as an environment

    Every field is a function of the call history: [env_raises t] and
    [env_returns t] say what the last call of [t] raised or returned, the
    other fields what an attribute of the connection reads as after [t].
    Reading [bound], [closed] and [result] and calling [unbind()] on a stale
    connection are taken to return normally; every other call may raise. *)
Record Env := mkEnv {
  env_raises : list Op → option Exn;
  env_returns : list Op → bool;
  env_bound : list Op → bool;               (* [connection.bound] *)
  env_closed : list Op → bool;              (* [connection.closed] *)
  env_result : list Op → string;            (* [connection.result] *)
  env_root_dn : list Op → option string;    (* [server.info.other[...][0]] *)
  env_response : list Op → option (list Item);   (* [connection.response] *)
  env_json : list Op → Res (list Entry);    (* [response_to_json()], decoded *)
  parse_dn : string → Res (list (string * string * string));
}.

(** ** State access *)

Definition gets {A} (f : State → A) : M A := λ s, (Ok (f s), s).

Definition log_op (o : Op) (s : State) : State :=
  mkState (ldap_connection s) (action_results s) (trace s ++ [o]).

Definition upd_ar (ar : nat) (f : ActionResult → ActionResult) (s : State) : State :=
  mkState (ldap_connection s) (alter f ar (action_results s)) (trace s).

(** [self.add_action_result(ActionResult(dict(param)))]: the handle of the new
    result is its position. *)
Definition add_action_result (param : gmap string PVal) : M nat :=
  λ s, (Ok (length (action_results s)),
        mkState (ldap_connection s)
                (action_results s ++ [new_action_result param]) (trace s)).

(** [action_result.set_status(status, message, exception)] returns [status]. *)
Definition set_status (ar : nat) (status : bool) (message : string)
    (exception : option Exn) : M bool :=
  λ s, (Ok status,
        upd_ar ar (λ r, mkAR (ar_param r) (Some status) message exception
                             (ar_data r) (ar_summary r)) s).

(** [action_result.get_status()]; a result whose status was never set reads
    as [APP_ERROR]. *)
Definition get_status (ar : nat) : M bool :=
  gets (λ s, default false (action_results s !! ar ≫= ar_status)).

Definition add_data (ar : nat) (d : DataRec) : M unit :=
  λ s, (Ok tt,
        upd_ar ar (λ r, mkAR (ar_param r) (ar_status r) (ar_message r)
                             (ar_exception r) (ar_data r ++ [d]) (ar_summary r)) s).

(** [action_result.update_summary(d)]: the entries of [d] are written into
    the summary. *)
Definition update_summary (ar : nat) (d : gmap string SumVal) : M unit :=
  λ s, (Ok tt,
        upd_ar ar (λ r, mkAR (ar_param r) (ar_status r) (ar_message r)
                             (ar_exception r) (ar_data r) (d ∪ ar_summary r)) s).

(** [summary[k] = v] on the dictionary returned by [update_summary({})]. *)
Definition summary_set (ar : nat) (k : string) (v : SumVal) : M unit :=
  update_summary ar {[ k := v ]}.

(** [param[k]] *)
Definition param_get (param : gmap string PVal) (k : string) : M PVal :=
  match param !! k with
  | Some v => ret v
  | None => raise (KeyError k)
  end.

(** [[i.strip() for i in v.split(';')]]: only strings have [split]. *)
Definition str_split_strip (v : PVal) : M (list string) :=
  match v with
  | PStr s => ret (split_strip s)
  | _ => raise (AttributeError "split")
  end.

(** Operations issued between two states. *)
Definition issued (s s' : State) : list Op :=
  drop (length (trace s)) (trace s').

Section connector.
Variable env : Env.

(** A call into ldap3: it is recorded, then raises or returns. *)
Definition call (o : Op) : M unit :=
  λ s, let s' := log_op o s in
       match env_raises env (trace s') with
       | Some e => (Raise e, s')
       | None => (Ok tt, s')
       end.

Definition call_bool (o : Op) : M bool :=
  do _ <- call o; gets (λ s, env_returns env (trace s)).

Definition unbind : M unit := λ s, (Ok tt, log_op OpUnbind s).

(** [self._ldap_connection and self._ldap_connection.bound and not
    self._ldap_connection.closed] *)
Definition connection_live : M bool :=
  gets (λ s, ldap_connection s && env_bound env (trace s)
             && negb (env_closed env (trace s))).

Definition connection_result : M string :=
  gets (λ s, env_result env (trace s)).

Definition _ldap_bind (action_result : option nat) : M bool :=
  do alive <- connection_live;
  if alive then ret true
  else
    do present <- gets ldap_connection;
    do _ <- (if present then unbind else ret tt);
    try_catch
      (do _ <- call OpServer;
       do _ <- call OpConnection;
       do _ <- (λ s, (Ok tt, mkState true (action_results s) (trace s)));
       do bound <- call_bool OpBind;
       if negb bound then
         match action_result with
         | Some ar =>
             do description <- connection_result;
             set_status ar false description None
         | None => ret false
         end
       else
         match action_result with
         | Some ar => set_status ar true "" None
         | None => ret true
         end)
      (λ e, match action_result with
            | Some ar => set_status ar false "" (Some e)
            | None => ret false
            end).

(** Root naming context, or [False]. *)
Definition _get_root_dn : M PVal :=
  do ok <- _ldap_bind None;
  if ok then
    gets (λ s, match env_root_dn env (trace s) with
               | Some d => PStr d
               | None => PBool false
               end)
  else ret (PBool false).

Definition response_to_json : M (list Entry) :=
  λ s, (env_json env (trace s), s).

(** [param.get('search_base', self._get_root_dn())] evaluates the default
    first; [self._ldap_bind.result] is an attribute a method does not have,
    so that is the exception the failed bind ends in. *)
Definition _query (param : gmap string PVal) : M (list Entry) :=
  do a <- param_get param "attributes";
  do attrs <- str_split_strip a;
  do filter <- param_get param "filter";
  do root <- _get_root_dn;
  let search_base := default root (param !! "search_base") in
  do ok <- _ldap_bind None;
  if negb ok then
    raise (AttributeError "result")
  else
    do _ <- call (OpSearch search_base filter attrs);
    response_to_json.

(** [[i for i in response if i['type'] != 'searchResRef']] *)
Fixpoint not_search_res_ref (items : list Item) : Res (list Item) :=
  match items with
  | [] => Ok []
  | i :: rest =>
      match i_type i with
      | None => Raise (KeyError "type")
      | Some t =>
          match not_search_res_ref rest with
          | Ok l => Ok (if String.eqb t "searchResRef" then l else i :: l)
          | Raise e => Raise e
          end
      end
  end.

Definition connection_response : M (list Item) :=
  λ s, if ldap_connection s then
         match env_response env (trace s) with
         | Some l => (Ok l, s)
         | None => (Raise (AttributeError "response"), s)
         end
       else
         (Raise (AttributeError "response"), s).

Definition _get_filtered_response : M (list Item) :=
  try_catch
    (do items <- connection_response; lift (not_search_res_ref items))
    (λ _, ret []).

(** *** Identifier resolution *)

Definition sam_filter (sam : list PVal) : string :=
  foldl (λ f u, f +:+ "(samaccountname=" +:+ py_str u +:+ ")") "(|" sam
  +:+ ")".

Definition entry_attr (i : Entry) (key : string)
    (proj : Attrs → option string) : Res string :=
  match e_attributes i with
  | None => Raise (KeyError "attributes")
  | Some a =>
      match proj a with
      | None => Raise (KeyError key)
      | Some v => Ok v
      end
  end.

(** The loop over [dn['entries']]; a value [None] is Python's [False]. *)
Fixpoint sam_fill (r : list (PVal * option string)) (entries : list Entry)
    : Res (list (PVal * option string)) :=
  match entries with
  | [] => Ok r
  | i :: rest =>
      match entry_attr i "sAMAccountName" sAMAccountName with
      | Raise e => Raise e
      | Ok s =>
          if dict_mem r (PStr s) then
            match entry_attr i "distinguishedName" distinguishedName with
            | Raise e => Raise e
            | Ok d => sam_fill (dict_set r (PStr s) (Some d)) rest
            end
          else sam_fill r rest
      end
  end.

Definition found_records (r : list (PVal * option string)) : nat :=
  length (filter (λ kv, is_Some kv.2) r).

(** The parameters [p] of the one search. *)
Definition sam_param (sam : list PVal) : gmap string PVal :=
  <["attributes" := PStr "distinguishedname;samaccountname"]>
    (<["filter" := PStr (sam_filter sam)]> ∅).

Definition _sam_to_dn (sam : list PVal) (action_result : option nat)
    : M (list (PVal * option string)) :=
  do dn <- _query (sam_param sam);
  do r <- lift (sam_fill (dict_from_keys sam None) dn);
  do _ <- match action_result with
          | Some ar =>
              update_summary ar
                (<["requested records" := SInt (length sam)]>
                   (<["found records" := SInt (found_records r)]> ∅))
          | None => ret tt
          end;
  ret r.

(** *** Action handlers *)

(** [ldap3.LDAPSocketOpenError], the class the first [except] clause of
    [_handle_query] names: the module [ldap3] exports no such attribute (the
    class is [ldap3.core.exceptions.LDAPSocketOpenError]), so looking the
    name up raises and the class test, [is_socket_open_error], is never
    made. *)
Definition ldap3_LDAPSocketOpenError : Res (Exn → bool) :=
  Raise (AttributeError "module 'ldap3' has no attribute 'LDAPSocketOpenError'").

(** The [except] clauses are tried in order once [_query] has raised: the
    class of the first clause is looked up before any clause is entered. *)
Definition _handle_query (param : gmap string PVal) : M PyRet :=
  do action_result <- add_action_result param;
  do _ <- update_summary action_result ∅;
  do attempt <-
    try_catch
      (do resp <- _query param; ret (Continue resp))
      (λ e,
         do is_instance <- lift ldap3_LDAPSocketOpenError;
         if is_instance e then
           do st <- set_status action_result false
                      "Invalid server address. Two common causes: invalid Server hostname or search_base"
                      None;
           ret (Return (PRetVal st))
         else
           do st <- set_status action_result false (exn_str e) None;
           ret (Return (PRetVal st)));
  match attempt with
  | Return r => ret r
  | Continue resp =>
      do _ <- add_data action_result (DJson resp);
      do found <- _get_filtered_response;
      do _ <- summary_set action_result "Total Records Found"
                (SInt (length found));
      do st <- set_status action_result true "" None;
      ret (PRetVal st)
  end.

(** The values that are not [False], in [items()] order. *)
Definition resolved (t : list (PVal * option string)) : list string :=
  omap snd t.

(** Lines 169-188: both lists are resolved, members first. *)
Definition resolve_members_groups (action_result : nat)
    (members groups : list string) : M (list string * list string) :=
  do t_users <- _sam_to_dn (PStr <$> members) (Some action_result);
  let n_members := resolved t_users in
  do t_group <- _sam_to_dn (PStr <$> groups) (Some action_result);
  let n_groups := resolved t_group in
  ret (n_members, n_groups).

Definition group_func (add : bool) : string :=
  if add then "added" else "removed".

(** [ad_add_members_to_groups] or [ad_remove_members_from_groups], both
    called with [fix=True, raise_error=True]. *)
Definition group_op (add : bool) (members groups : list string) : Op :=
  if add then OpAddMembers members groups else OpRemoveMembers members groups.

(** Lines 200-238: the extended operation and the data records. *)
Definition apply_group_members (action_result : nat) (add : bool)
    (members groups : list string) : M PyRet :=
  let func := group_func add in
  do attempt <-
    try_catch
      (do _ <- call (group_op add members groups); ret (Continue tt))
      (λ e, do st <- set_status action_result false "" (Some e);
            ret (Return (PRetVal st)));
  match attempt with
  | Return r => ret r
  | Continue _ =>
      do _ <- for_each members (λ i,
                for_each groups (λ j,
                  add_data action_result (DGroup i j func)));
      do st <- set_status action_result true
                 (func +:+ " member(s) to group(s).") None;
      ret (PRetVal st)
  end.

Definition _handle_group_members (param : gmap string PVal) (add : bool)
    : M PyRet :=
  do action_result <- add_action_result param;
  do ok <- _ldap_bind None;
  if negb ok then
    do st <- set_status action_result false "" None; ret (PRetVal st)
  else
    do m <- param_get param "members";
    do members <- str_split_strip m;
    do g <- param_get param "groups";
    do groups <- str_split_strip g;
    if truthy (default (PBool false) (param !! "use_samaccountname")) then
      do '(n_members, n_groups) <-
        resolve_members_groups action_result members groups;
      if (0 <? length n_members)%nat && (0 <? length n_groups)%nat then
        apply_group_members action_result add n_members n_groups
      else
        do st <- set_status action_result false "" None; ret (PRetVal st)
    else
      apply_group_members action_result add members groups.

Definition _handle_unlock_account (param : gmap string PVal) : M PyRet :=
  do action_result <- add_action_result param;
  do _ <- update_summary action_result ∅;
  do user <- param_get param "user";
  (* [user_dn] is a local that only the branch below assigns *)
  do resolution <-
    (if truthy (default (PBool false) (param !! "use_samaccountname")) then
       do user_dn <- _sam_to_dn [user] None;
       if (length user_dn =? 0)%nat then
         do st <- set_status action_result false "" None;
         ret (Return (PRetVal st))
       else
         match dict_get user_dn user with
         | None => raise (KeyError (py_str user))
         | Some None =>
             do st <- set_status action_result false "" None;
             ret (Return (PRetVal st))
         | Some (Some _) => ret (Continue (Some user_dn))
         end
     else ret (Continue None));
  match resolution with
  | Return r => ret r
  | Continue user_dn =>
      do ok <- _ldap_bind None;
      if negb ok then
        do st <- set_status action_result false "" None; ret (PRetVal st)
      else
        do attempt <-
          try_catch
            (do d <- match user_dn with
                     | None => raise (UnboundLocalError "user_dn")
                     | Some t =>
                         match dict_get t user with
                         | Some d => ret d
                         | None => raise (KeyError (py_str user))
                         end
                     end;
             do _ <- call (OpUnlock d);
             ret (Continue tt))
            (λ e, do st <- set_status action_result false "" (Some e);
                  ret (Return (PRetVal st)));
        match attempt with
        | Return r => ret r
        | Continue _ =>
            do _ <- summary_set action_result "summary" (SStr "Unlocked");
            do st <- set_status action_result true "" None;
            ret (PRetVal st)
        end
  end.

(** [uac | 0x02] and [uac & (0xFFFFFFFF ^ 0x02)] on Python integers. *)
Definition mod_uac (disable : bool) (uac : Z) : Z :=
  if disable then Z.lor uac 0x02
  else Z.land uac (Z.lxor 0xFFFFFFFF 0x02).

(** [int(resp[0]['attributes']['userAccountControl'])] *)
Definition first_uac (resp : list Item) : Res Z :=
  match resp with
  | [] => Raise IndexError
  | i :: _ =>
      match i_attributes i with
      | None => Raise (KeyError "attributes")
      | Some a =>
          match userAccountControl a with
          | None => Raise (KeyError "userAccountControl")
          | Some uac => Ok uac
          end
      end
  end.

Definition uac_changes (v : Z) : Changes :=
  [(PStr "userAccountControl", (MODIFY_REPLACE, [PInt v]))].

Definition _handle_account_status (param : gmap string PVal)
    (disable : bool) : M PyRet :=
  do action_result <- add_action_result param;
  do ok <- _ldap_bind None;
  if negb ok then
    do st <- set_status action_result false "" None; ret (PRetVal st)
  else
    do user <- param_get param "user";
    do attempt <-
      try_catch
        (let query_params : gmap string PVal :=
           <["attributes" := PStr "useraccountcontrol"]>
             (<["filter" :=
                  PStr ("(distinguishedname=" +:+ py_str user +:+ ")")]> ∅) in
         do _ <- _handle_query query_params;
         do resp <- _get_filtered_response;
         do uac <- lift (first_uac resp);
         do res <- call_bool (OpModify user (uac_changes (mod_uac disable uac)));
         if negb res then
           do r <- connection_result;
           do st <- set_status action_result false r None;
           ret (Return (PRetVal st))
         else ret (Continue tt))
        (λ e, do st <- set_status action_result false "" (Some e);
              ret (Return (PRetVal st)));
    match attempt with
    | Return r => ret r
    | Continue _ =>
        do st <- set_status action_result true "" None; ret (PRetVal st)
    end.

(** ['='.join(parse_dn(obj)[0][:-1])]: attribute and value of the first
    component, without its separator. *)
Definition first_rdn (obj : PVal) : Res string :=
  match obj with
  | PStr s =>
      match parse_dn env s with
      | Raise e => Raise e
      | Ok [] => Raise IndexError
      | Ok ((attribute, value, _) :: _) => Ok (attribute +:+ "=" +:+ value)
      end
  | _ => Raise (TypeError "dn")
  end.

Definition _handle_move_object (param : gmap string PVal) : M PyRet :=
  do action_result <- add_action_result param;
  do obj <- param_get param "object";
  do new_ou <- param_get param "new_ou";
  do ok <- _ldap_bind None;
  if negb ok then
    do st <- set_status action_result false "" None; ret (PRetVal st)
  else
    do attempt <-
      try_catch
        (do cn <- lift (first_rdn obj);
         do res <- call_bool (OpModifyDn obj cn new_ou);
         if negb res then
           do r <- connection_result;
           do st <- set_status action_result false r None;
           ret (Return (PRetVal st))
         else ret (Continue tt))
        (λ e, do st <- set_status action_result false "" (Some e);
              ret (Return (PRetVal st)));
    match attempt with
    | Return r => ret r
    | Continue _ => ret PNone     (* the function body ends here *)
    end.

Definition _handle_test_connectivity (param : gmap string PVal) : M PyRet :=
  do action_result <- add_action_result param;
  do ok <- _ldap_bind (Some action_result);
  if negb ok then
    do st <- get_status action_result; ret (PStatus st)
  else
    do current <- get_status action_result;
    do st <- set_status action_result current "" None;
    ret (PStatus st).

Definition attributes_filter (principal : list string) : string :=
  foldl (λ q i, q +:+ "(userprincipalname=" +:+ i +:+ ")(samaccountname="
                  +:+ i +:+ ")(distinguishedname=" +:+ i +:+ ")")
        "(|" principal
  +:+ ")".

Definition _handle_get_attributes (param : gmap string PVal) : M PyRet :=
  do action_result <- add_action_result param;
  do _ <- update_summary action_result ∅;
  do ok <- _ldap_bind None;
  if negb ok then ret (PStatus false)
  else
    do p <- param_get param "principals";
    do principal <- str_split_strip p;
    let query := attributes_filter principal in
    do attributes <- param_get param "attributes";
    do resp <- _query (<["filter" := PStr query]>
                         (<["attributes" := attributes]> ∅));
    do _ <- add_data action_result (DJson resp);
    do found <- _get_filtered_response;
    do _ <- summary_set action_result "total_objects" (SInt (length found));
    do st <- set_status action_result true "" None;
    ret (PRetVal st).

Definition set_attribute_changes (action attribute value : PVal) : Changes :=
  if bool_decide (action = PStr "ADD") then
    [(attribute, (MODIFY_ADD, [value]))]
  else if bool_decide (action = PStr "DELETE") then
    [(attribute, (MODIFY_DELETE, [value]))]
  else if bool_decide (action = PStr "REPLACE") then
    [(attribute, (MODIFY_REPLACE, [value]))]
  else [].

(** The [except] clause sets the status and falls through; [ret] is then a
    local that was never assigned. *)
Definition _handle_set_attribute (param : gmap string PVal) : M PyRet :=
  do action_result <- add_action_result param;
  do user <- param_get param "user";
  do attribute <- param_get param "attribute";
  do value <- param_get param "value";
  do action <- param_get param "action";
  let changes := set_attribute_changes action attribute value in
  do ok <- _ldap_bind None;
  if negb ok then ret (PStatus false)
  else
    do modified <-
      try_catch
        (do r <- call_bool (OpModify user changes); ret (Some r))
        (λ e, do _ <- set_status action_result false "" (Some e); ret None);
    match modified with
    | None => raise (UnboundLocalError "ret")
    | Some r =>
        do _ <- add_data action_result (DModified r);
        do st <- set_status action_result true "" None;
        ret (PRetVal st)
    end.

(** [raise Exception(self._ldap_bind.result)] fails on the attribute
    access; [RetVal(status, "", e)] passes one argument more than
    [RetVal.__new__] accepts, after [set_status] has run. *)
Definition _handle_reset_password (param : gmap string PVal) : M PyRet :=
  do action_result <- add_action_result param;
  do user <- param_get param "user";
  do pwd <- param_get param "password";
  do ok <- _ldap_bind None;
  if negb ok then
    raise (AttributeError "result")
  else
    do changed <-
      try_catch
        (call_bool (OpModifyPassword user pwd))
        (λ e, do _ <- set_status action_result false "" None;
              raise (TypeError "__new__"));
    if changed then
      do _ <- add_data action_result (DReset true);
      do st <- set_status action_result true "" None;
      ret (PRetVal st)
    else
      do _ <- add_data action_result (DReset false);
      do st <- set_status action_result false "" None;
      ret (PRetVal st).

(** [action_id] is what the host's [get_action_identifier()] returns. *)
Definition handle_action (action_id : string) (param : gmap string PVal)
    : M PyRet :=
  if String.eqb action_id "test_connectivity" then
    _handle_test_connectivity param
  else if String.eqb action_id "query" then _handle_query param
  else if String.eqb action_id "add_group_members" then
    _handle_group_members param true
  else if String.eqb action_id "remove_group_members" then
    _handle_group_members param false
  else if String.eqb action_id "unlock_account" then
    _handle_unlock_account param
  else if String.eqb action_id "disable_account" then
    _handle_account_status param true
  else if String.eqb action_id "enable_account" then
    _handle_account_status param false
  else if String.eqb action_id "move_object" then _handle_move_object param
  else if String.eqb action_id "get_attributes" then
    _handle_get_attributes param
  else if String.eqb action_id "set_attribute" then
    _handle_set_attribute param
  else if String.eqb action_id "reset_password" then
    _handle_reset_password param
  else ret (PStatus true).

End connector.

(** ** Vocabulary of the statements *)

(** A search hit with short-form name [name] and canonical identifier
    [dn]. *)
Definition hit (e : Entry) (name dn : string) : Prop :=
  ∃ a, e_attributes e = Some a
       ∧ sAMAccountName a = Some name ∧ distinguishedName a = Some dn.

Definition named (e : Entry) (name : string) : Prop :=
  ∃ a, e_attributes e = Some a ∧ sAMAccountName a = Some name.

(** The same connector state with other action results. *)
Definition with_results (l : list ActionResult) (s : State) : State :=
  mkState (ldap_connection s) l (trace s).

(** Whether [_ldap_bind()] answers [True] from state [s]. *)
Definition bind_succeeds (env : Env) (s : State) : bool :=
  match (_ldap_bind env None s).1 with
  | Ok true => true
  | _ => false
  end.

(** One record per pair, members outermost. *)
Definition group_records (func : string) (members groups : list string)
    : list DataRec :=
  i ← members; (λ j, DGroup i j func) <$> groups.

Definition append_data (l : list DataRec) (r : ActionResult) : ActionResult :=
  mkAR (ar_param r) (ar_status r) (ar_message r) (ar_exception r)
       (ar_data r ++ l) (ar_summary r).

(** The state in which the group handler starts resolving: its action
    result is registered and the bind is done. *)
Definition group_members_entry (env : Env) (param : gmap string PVal)
    (s : State) : State :=
  (_ldap_bind env None (add_action_result param s).2).2.

(** Session management and searches: what resolution and queries issue. *)
Definition is_session_op (o : Op) : bool := is_conn_op o || is_search_op o.

(** ** Frames

    [quiet P s s']: from [s] to [s'] only operations satisfying [P] were
    issued, and the registered action results changed at most in their
    summaries. *)

Definition summary_only (r r' : ActionResult) : Prop :=
  ar_param r' = ar_param r ∧ ar_status r' = ar_status r
  ∧ ar_message r' = ar_message r ∧ ar_exception r' = ar_exception r
  ∧ ar_data r' = ar_data r.

Definition quiet (P : Op → bool) (s s' : State) : Prop :=
  (∃ ops, trace s' = trace s ++ ops ∧ forallb P ops = true)
  ∧ Forall2 summary_only (action_results s) (action_results s').

Definition Quiet {A} (P : Op → bool) (m : M A) : Prop :=
  ∀ s r s', m s = (r, s') → quiet P s s'.

(** The same for the issued operations alone. *)
Definition Traces {A} (P : Op → bool) (m : M A) : Prop :=
  ∀ s r s', m s = (r, s') →
    ∃ ops, trace s' = trace s ++ ops ∧ forallb P ops = true.

(** ** Sample environments

    Concrete directories used by the examples below.  [plain_parse_dn]
    stands in for [ldap3.utils.dn.parse_dn] on identifiers without escaped
    characters. *)

Definition rdn_of (separator component : string) : string * string * string :=
  match split "="%char component with
  | attribute :: value => (attribute, String.concat "=" value, separator)
  | [] => (component, "", separator)
  end.

Fixpoint rdns_of (components : list string) : list (string * string * string) :=
  match components with
  | [] => []
  | [c] => [rdn_of "" c]
  | c :: cs => rdn_of "," c :: rdns_of cs
  end.

Definition plain_parse_dn (dn : string) : Res (list (string * string * string)) :=
  if String.eqb dn "" then Raise (LDAPException "empty dn")
  else Ok (rdns_of (split ","%char dn)).

Definition is_bind_op (o : Op) : bool :=
  match o with OpBind => true | _ => false end.

(** The connection is bound once a bind call is in the history. *)
Definition bound_after_bind (t : list Op) : bool := existsb is_bind_op t.

(** A directory in which every call returns [True] and searches find
    nothing. *)
Definition quiet_env : Env :=
  mkEnv (λ _, None) (λ _, true) bound_after_bind (λ _, false) (λ _, "")
        (λ _, Some "DC=x") (λ _, Some []) (λ _, Ok []) plain_parse_dn.

(** A server that cannot be reached: the bind raises. *)
Definition unreachable_env : Env :=
  mkEnv (λ t, match last t with
              | Some OpBind => Some (LDAPSocketOpenError "unreachable")
              | _ => None
              end)
        (λ _, true) (λ _, false) (λ _, false) (λ _, "")
        (λ _, None) (λ _, None) (λ _, Ok []) plain_parse_dn.

(** A directory that rejects every search and every modification by
    raising. *)
Definition rejecting_env : Env :=
  mkEnv (λ t, match last t with
              | Some o => if is_conn_op o then None
                          else Some (LDAPException "operation rejected")
              | None => None
              end)
        (λ _, true) bound_after_bind (λ _, false) (λ _, "")
        (λ _, Some "DC=x") (λ _, Some []) (λ _, Ok []) plain_parse_dn.

(** A directory holding one account.  A search reports the account with its
    stored [userAccountControl]; replacing that attribute stores the new
    value. *)
Fixpoint stored_uac (uac : Z) (t : list Op) : Z :=
  match t with
  | [] => uac
  | OpModify _ [(_, (MODIFY_REPLACE, [PInt v]))] :: t' => stored_uac v t'
  | _ :: t' => stored_uac uac t'
  end.

Definition account_env (uac : Z) : Env :=
  mkEnv (λ _, None) (λ _, true) bound_after_bind (λ _, false) (λ _, "")
        (λ _, Some "DC=x")
        (λ t, Some [mkItem (Some "searchResEntry")
                      (Some (mkAttrs None None (Some (stored_uac uac t))))])
        (λ _, Ok []) plain_parse_dn.

(** A directory whose last search returned two entries and a referral. *)
Definition alice_entry : Item :=
  mkItem (Some "searchResEntry")
         (Some (mkAttrs (Some "alice") (Some "CN=Alice,OU=Old,DC=x") (Some 512))).

Definition bob_entry : Item :=
  mkItem (Some "searchResEntry")
         (Some (mkAttrs (Some "bob") (Some "CN=Bob,OU=Old,DC=x") (Some 514))).

Definition referral : Item := mkItem (Some "searchResRef") None.

Definition referral_env : Env :=
  mkEnv (λ _, None) (λ _, true) bound_after_bind (λ _, false) (λ _, "")
        (λ _, Some "DC=x") (λ _, Some [alice_entry; referral; bob_entry])
        (λ _, Ok []) plain_parse_dn.

(** The connector after a first successful bind. *)
Definition bound_state : State := mkState true [] [OpServer; OpConnection; OpBind].

(** A directory that knows the account [alice] and the group [g1]: every
    search returns both entries. *)
Definition alice_hit : Entry :=
  mkEntry "CN=Alice,OU=Old,DC=x"
          (Some (mkAttrs (Some "alice") (Some "CN=Alice,OU=Old,DC=x") (Some 512))).

Definition g1_hit : Entry :=
  mkEntry "CN=G1,OU=Groups,DC=x"
          (Some (mkAttrs (Some "g1") (Some "CN=G1,OU=Groups,DC=x") None)).

Definition directory_env : Env :=
  mkEnv (λ _, None) (λ _, true) bound_after_bind (λ _, false) (λ _, "")
        (λ _, Some "DC=x") (λ _, Some []) (λ _, Ok [alice_hit; g1_hit])
        plain_parse_dn.

(** ** Sample parameters *)

Definition move_param : gmap string PVal :=
  {[ "object" := PStr "CN=Alice,OU=Old,DC=x"; "new_ou" := PStr "OU=New,DC=x" ]}.

Definition set_attribute_param (action : string) : gmap string PVal :=
  {[ "user" := PStr "CN=Alice,OU=Old,DC=x"; "attribute" := PStr "mail";
     "value" := PStr "alice@x"; "action" := PStr action ]}.

Definition reset_param : gmap string PVal :=
  {[ "user" := PStr "CN=Alice,OU=Old,DC=x"; "password" := PStr "s3cret" ]}.

Definition attributes_param : gmap string PVal :=
  {[ "principals" := PStr "alice"; "attributes" := PStr "mail;samaccountname" ]}.

Definition unlock_param : gmap string PVal := {[ "user" := PStr "alice" ]}.

(** [alice] resolves, [bob] does not. *)
Definition partial_param : gmap string PVal :=
  {[ "members" := PStr "alice;bob"; "groups" := PStr "g1";
     "use_samaccountname" := PBool true ]}.

Definition pairs_param : gmap string PVal :=
  {[ "members" := PStr "CN=A,DC=x; CN=B,DC=x";
     "groups" := PStr "CN=G1,DC=x;CN=G2,DC=x;CN=G3,DC=x" ]}.

(** ** What a handler keeps

    [kept n s s']: the first [n] action results are as they were and the
    call history was only extended. *)
Definition kept (n : nat) (s s' : State) : Prop :=
  (n ≤ length (action_results s'))%nat
  ∧ take n (action_results s') = take n (action_results s)
  ∧ trace s `prefix_of` trace s'.

Definition Keeps {A} (n : nat) (m : M A) : Prop :=
  ∀ s r s', (n ≤ length (action_results s))%nat → m s = (r, s') → kept n s s'.

(** Whether the connection object exists, is bound and is not closed. *)
Definition is_live (env : Env) (s : State) : bool :=
  ldap_connection s && env_bound env (trace s)
  && negb (env_closed env (trace s)).

(** The state after a handler's first two lines, shared by [_handle_query],
    [_handle_unlock_account] and [_handle_get_attributes]: the action result
    is registered and its summary initialised. *)
Definition query_entry (param : gmap string PVal) (s : State) : State :=
  (update_summary (length (action_results s)) ∅
     (add_action_result param s).2).2.

(** * Properties *)

(** ** The Python helpers on sample inputs *)

Example split_strip_members :
  split_strip " alice ; bob;" = ["alice"; "bob"; ""].
Proof. reflexivity. Qed.

Example split_strip_empty : split_strip "" = [""].
Proof. reflexivity. Qed.

(** The separators U+001F and U+001C, the no-break space U+00A0 and the
    ideographic space U+3000 are whitespace to [strip()]; the last byte of
    [à] ([C3 A0]) is not. *)
Example split_strip_unicode_whitespace :
  split_strip
    (String "031" "alice" +:+ String "194" (String "160" ";")
     +:+ String "028" "bob" +:+ String "227" (String "128" (String "128" ";"))
     +:+ "voil" +:+ String "195" (String "160" " "))
  = ["alice"; "bob"; "voil" +:+ String "195" (String "160" "")].
Proof. reflexivity. Qed.

Example sam_filter_two :
  sam_filter [PStr "alice"; PStr "bob"]
  = "(|(samaccountname=alice)(samaccountname=bob))".
Proof. reflexivity. Qed.

Example attributes_filter_one :
  attributes_filter ["alice"]
  = "(|(userprincipalname=alice)(samaccountname=alice)(distinguishedname=alice))".
Proof. reflexivity. Qed.

Example dict_from_keys_duplicate :
  dict_from_keys [PStr "a"; PStr "b"; PStr "a"] (@None string)
  = [(PStr "a", None); (PStr "b", None)].
Proof. reflexivity. Qed.

Example mod_uac_disable : mod_uac true 512 = 514.
Proof. reflexivity. Qed.

Example mod_uac_enable : mod_uac false 514 = 512.
Proof. reflexivity. Qed.

Example plain_parse_dn_alice :
  plain_parse_dn "CN=Alice,OU=Old,DC=x"
  = Ok [("CN", "Alice", ","); ("OU", "Old", ","); ("DC", "x", "")].
Proof. reflexivity. Qed.

(** ** Stepping through the monad *)

Section monad_facts.
Context {A B : Type}.
Implicit Types (m : M A) (k : A → M B) (h : Exn → M A).

Lemma bind_Ok m k s a s' : m s = (Ok a, s') → bind m k s = k a s'.
Proof. unfold bind. by intros ->. Qed.

Lemma bind_Raise m k s e s' : m s = (Raise e, s') → bind m k s = (Raise e, s').
Proof. unfold bind. by intros ->. Qed.

Lemma try_catch_Ok m h s a s' : m s = (Ok a, s') → try_catch m h s = (Ok a, s').
Proof. unfold try_catch. by intros ->. Qed.

Lemma try_catch_Raise m h s e s' :
  m s = (Raise e, s') → try_catch m h s = h e s'.
Proof. unfold try_catch. by intros ->. Qed.

(** A [bind] that ends well went through an intermediate state. *)
Lemma bind_inv_Ok m k s b s' :
  bind m k s = (Ok b, s') → ∃ a s1, m s = (Ok a, s1) ∧ k a s1 = (Ok b, s').
Proof.
  unfold bind. destruct (m s) as [[a|e] s1]; [eauto | discriminate].
Qed.
End monad_facts.

(** ** What a computation leaves alone *)

Lemma summary_only_refl r : summary_only r r.
Proof. by repeat split. Qed.

Lemma summary_only_trans r1 r2 r3 :
  summary_only r1 r2 → summary_only r2 r3 → summary_only r1 r3.
Proof. unfold summary_only. intros (?&?&?&?&?) (?&?&?&?&?). repeat split; congruence. Qed.

Lemma results_refl (l : list ActionResult) : Forall2 summary_only l l.
Proof.
  apply Forall2_same_length_lookup_2; [done|].
  intros i r r' ? ?. simplify_eq. apply summary_only_refl.
Qed.

Lemma quiet_refl P s : quiet P s s.
Proof. split; [exists []; by rewrite app_nil_r | apply results_refl]. Qed.

Lemma quiet_trans P s1 s2 s3 : quiet P s1 s2 → quiet P s2 s3 → quiet P s1 s3.
Proof.
  intros [(o1 & E1 & F1) R1] [(o2 & E2 & F2) R2]. split.
  - exists (o1 ++ o2). rewrite E2, E1, app_assoc. split; [done|].
    by rewrite forallb_app, F1, F2.
  - eapply Forall2_trans; [|exact R1|exact R2].
    intros ???. apply summary_only_trans.
Qed.

Lemma quiet_weaken (P Q : Op → bool) s s' :
  (∀ o, P o = true → Q o = true) → quiet P s s' → quiet Q s s'.
Proof.
  intros HPQ [(ops & E & F) R]. split; [|done]. exists ops. split; [done|].
  apply forallb_forall. intros o Ho. apply HPQ.
  by eapply forallb_forall in F.
Qed.

Lemma quiet_length P s s' :
  quiet P s s' → length (action_results s') = length (action_results s).
Proof. intros [_ R]. symmetry. by eapply Forall2_length. Qed.

Lemma quiet_lookup P s s' i r :
  quiet P s s' → action_results s !! i = Some r →
  ∃ r', action_results s' !! i = Some r' ∧ summary_only r r'.
Proof. intros [_ R] Hi. by eapply Forall2_lookup_l in R. Qed.

Lemma quiet_issued P s s' :
  quiet P s s' → trace s' = trace s ++ issued s s' ∧ forallb P (issued s s') = true.
Proof.
  intros [(ops & E & F) _]. unfold issued.
  by rewrite E, drop_app_length.
Qed.

Section quiet_rules.
Context {A B : Type} (P : Op → bool).

Lemma Quiet_ret (a : A) : Quiet P (ret a).
Proof. intros s r s' [= <- <-]. apply quiet_refl. Qed.

Lemma Quiet_raise (e : Exn) : Quiet P (@raise A e).
Proof. intros s r s' [= <- <-]. apply quiet_refl. Qed.

Lemma Quiet_gets (f : State → A) : Quiet P (gets f).
Proof. intros s r s' [= <- <-]. apply quiet_refl. Qed.

Lemma Quiet_lift (r0 : Res A) : Quiet P (lift r0).
Proof. intros s r s' [= <- <-]. apply quiet_refl. Qed.

Lemma Quiet_bind (m : M A) (k : A → M B) :
  Quiet P m → (∀ a, Quiet P (k a)) → Quiet P (bind m k).
Proof.
  intros Hm Hk s r s' E. unfold bind in E.
  destruct (m s) as [[a|e] s1] eqn:Em.
  - eapply quiet_trans; [by eapply Hm | by eapply Hk].
  - injection E as <- <-. by eapply Hm.
Qed.

Lemma Quiet_try_catch (m : M A) (h : Exn → M A) :
  Quiet P m → (∀ e, Quiet P (h e)) → Quiet P (try_catch m h).
Proof.
  intros Hm Hh s r s' E. unfold try_catch in E.
  destruct (m s) as [[a|e] s1] eqn:Em.
  - injection E as <- <-. by eapply Hm.
  - eapply quiet_trans; [by eapply Hm | by eapply Hh].
Qed.
End quiet_rules.

Lemma Quiet_weaken {A} (P Q : Op → bool) (m : M A) :
  (∀ o, P o = true → Q o = true) → Quiet P m → Quiet Q m.
Proof. intros HPQ Hm s r s' E. eapply quiet_weaken; [done | by eapply Hm]. Qed.

Section traces_rules.
Context {A B : Type} (P : Op → bool).

Lemma Quiet_Traces (m : M A) : Quiet P m → Traces P m.
Proof. intros Hm s r s' E. by apply Hm in E as [? _]. Qed.

(** Bookkeeping on the action results issues nothing. *)
Lemma Traces_same_trace (m : M A) : (∀ s, trace (m s).2 = trace s) → Traces P m.
Proof.
  intros Hm s r s' E. exists []. rewrite app_nil_r.
  split; [|done]. by rewrite <- (Hm s), E.
Qed.

Lemma Traces_bind (m : M A) (k : A → M B) :
  Traces P m → (∀ a, Traces P (k a)) → Traces P (bind m k).
Proof.
  intros Hm Hk s r s' E. unfold bind in E.
  destruct (m s) as [[a|e] s1] eqn:Em.
  - destruct (Hm _ _ _ Em) as (o1 & E1 & F1).
    destruct (Hk _ _ _ _ E) as (o2 & E2 & F2).
    exists (o1 ++ o2). rewrite E2, E1, app_assoc. split; [done|].
    by rewrite forallb_app, F1, F2.
  - injection E as <- <-. by eapply Hm.
Qed.

Lemma Traces_try_catch (m : M A) (h : Exn → M A) :
  Traces P m → (∀ e, Traces P (h e)) → Traces P (try_catch m h).
Proof.
  intros Hm Hh s r s' E. unfold try_catch in E.
  destruct (m s) as [[a|e] s1] eqn:Em.
  - injection E as <- <-. by eapply Hm.
  - destruct (Hm _ _ _ Em) as (o1 & E1 & F1).
    destruct (Hh _ _ _ _ E) as (o2 & E2 & F2).
    exists (o1 ++ o2). rewrite E2, E1, app_assoc. split; [done|].
    by rewrite forallb_app, F1, F2.
Qed.
End traces_rules.

Lemma conn_op_session o : is_conn_op o = true → is_session_op o = true.
Proof. unfold is_session_op. by intros ->. Qed.

Lemma conn_ops_session ops :
  forallb is_conn_op ops = true → forallb is_session_op ops = true.
Proof.
  intros H. apply forallb_forall. intros o Ho. apply conn_op_session.
  by eapply forallb_forall in H.
Qed.

Section method_frames.
Variable env : Env.

Lemma Quiet_call P o : P o = true → Quiet P (call env o).
Proof.
  intros HP s r s' E. unfold call in E. split.
  - exists [o]. simpl. rewrite HP.
    by destruct (env_raises env _); injection E as <- <-.
  - destruct (env_raises env _); injection E as <- <-; apply results_refl.
Qed.

Lemma Quiet_call_bool P o : P o = true → Quiet P (call_bool env o).
Proof.
  intros HP. apply Quiet_bind; [by apply Quiet_call|].
  intros _. apply Quiet_gets.
Qed.

Lemma Quiet_unbind P : P OpUnbind = true → Quiet P unbind.
Proof.
  intros HP s r s' [= <- <-]. split; [|apply results_refl].
  exists [OpUnbind]. simpl. by rewrite HP.
Qed.

Lemma Quiet_update_summary P ar d : Quiet P (update_summary ar d).
Proof.
  intros s r s' [= <- <-]. split; [exists []; by rewrite app_nil_r|]. simpl.
  apply Forall2_same_length_lookup_2; [by rewrite length_alter|].
  intros i x y Hx Hy. rewrite list_lookup_alter in Hy.
  case_decide; simplify_eq/=.
  - rewrite Hx in Hy. by simplify_eq/=.
  - apply summary_only_refl.
Qed.

Lemma Quiet_ldap_bind P :
  (∀ o, is_conn_op o = true → P o = true) → Quiet P (_ldap_bind env None).
Proof.
  intros HP. unfold _ldap_bind.
  apply Quiet_bind; [apply Quiet_gets|]. intros [|]; [apply Quiet_ret|].
  apply Quiet_bind; [apply Quiet_gets|]. intros present.
  apply Quiet_bind.
  { destruct present; [apply Quiet_unbind; by apply HP | apply Quiet_ret]. }
  intros _. apply Quiet_try_catch; [|intros e; apply Quiet_ret].
  apply Quiet_bind; [apply Quiet_call; by apply HP|]. intros _.
  apply Quiet_bind; [apply Quiet_call; by apply HP|]. intros _.
  apply Quiet_bind.
  { intros s r s' [= <- <-]. split; [|apply results_refl].
    exists []. by rewrite app_nil_r. }
  intros _. apply Quiet_bind; [apply Quiet_call_bool; by apply HP|].
  intros [|]; apply Quiet_ret.
Qed.

(** Without an action result to report to, [_ldap_bind] answers with a
    boolean on every path. *)
Lemma ldap_bind_total s :
  ∃ b s', _ldap_bind env None s = (Ok b, s').
Proof.
  unfold _ldap_bind, bind, try_catch, connection_live, gets, ret, call_bool,
    call, unbind, bind, gets.
  repeat (match goal with
          | |- context [if ?b then _ else _] => destruct b
          | |- context [match ?o with Some _ => _ | None => _ end] => destruct o
          end; simpl); eauto.
Qed.

Lemma Quiet_get_root_dn P :
  (∀ o, is_conn_op o = true → P o = true) → Quiet P (_get_root_dn env).
Proof.
  intros HP. apply Quiet_bind; [by apply Quiet_ldap_bind|].
  intros [|]; [apply Quiet_gets | apply Quiet_ret].
Qed.

Lemma Quiet_param_get P param k : Quiet P (param_get param k).
Proof. unfold param_get. destruct (param !! k); [apply Quiet_ret | apply Quiet_raise]. Qed.

Lemma Quiet_str_split_strip P v : Quiet P (str_split_strip v).
Proof. destruct v; first [apply Quiet_ret | apply Quiet_raise]. Qed.

Lemma Quiet_query param : Quiet is_session_op (_query env param).
Proof.
  unfold _query.
  apply Quiet_bind; [apply Quiet_param_get|]. intros a.
  apply Quiet_bind; [apply Quiet_str_split_strip|]. intros attrs.
  apply Quiet_bind; [apply Quiet_param_get|]. intros filter.
  apply Quiet_bind; [apply Quiet_get_root_dn, conn_op_session|]. intros root.
  apply Quiet_bind; [apply Quiet_ldap_bind, conn_op_session|].
  intros [|]; simpl; [|apply Quiet_raise].
  apply Quiet_bind; [by apply Quiet_call|]. intros _.
  intros s r s' [= <- <-]. apply quiet_refl.
Qed.

Lemma Quiet_sam_to_dn sam action_result :
  Quiet is_session_op (_sam_to_dn env sam action_result).
Proof.
  unfold _sam_to_dn.
  apply Quiet_bind; [apply Quiet_query|]. intros dn.
  apply Quiet_bind; [apply Quiet_lift|]. intros r.
  apply Quiet_bind; [|intros _; apply Quiet_ret].
  destruct action_result; [apply Quiet_update_summary | apply Quiet_ret].
Qed.

Lemma Quiet_resolve_members_groups ar members groups :
  Quiet is_session_op (resolve_members_groups env ar members groups).
Proof.
  unfold resolve_members_groups.
  apply Quiet_bind; [apply Quiet_sam_to_dn|]. intros t_users.
  apply Quiet_bind; [apply Quiet_sam_to_dn|]. intros t_group.
  apply Quiet_ret.
Qed.

(** [_get_filtered_response] only reads. *)
Lemma get_filtered_response_state s r s' :
  _get_filtered_response env s = (r, s') → s' = s ∧ ∃ l, r = Ok l.
Proof.
  unfold _get_filtered_response, try_catch, bind, connection_response, lift, ret.
  destruct (ldap_connection s); [destruct (env_response env (trace s)) as [items|]|].
  - destruct (not_search_res_ref items); intros [= <- <-]; eauto.
  - intros [= <- <-]; eauto.
  - intros [= <- <-]; eauto.
Qed.
End method_frames.

(** ** The filtered response *)

Lemma not_search_res_ref_typed items :
  Forall (λ i, is_Some (i_type i)) items →
  not_search_res_ref items
  = Ok (filter (λ i, i_type i ≠ Some "searchResRef") items).
Proof.
  induction 1 as [|i items [t Ht] _ IH]; [done|].
  simpl. rewrite Ht, IH.
  destruct (String.eqb_spec t "searchResRef") as [->|Hne].
  - rewrite filter_cons_False; [done|]. rewrite Ht. naive_solver.
  - rewrite filter_cons_True; [done|]. rewrite Ht. congruence.
Qed.

Lemma not_search_res_ref_sound items l :
  not_search_res_ref items = Ok l →
  Forall (λ i, i_type i ≠ Some "searchResRef") l.
Proof.
  revert l. induction items as [|i items IH]; intros l; simpl.
  - intros [= <-]. constructor.
  - destruct (i_type i) as [t|] eqn:Ht; [|discriminate].
    destruct (not_search_res_ref items) as [l'|]; [|discriminate].
    intros [= <-]. destruct (String.eqb_spec t "searchResRef") as [->|Hne].
    + by apply IH.
    + constructor; [congruence | by apply IH].
Qed.

Lemma not_search_res_ref_untyped items :
  Exists (λ i, i_type i = None) items → ∃ e, not_search_res_ref items = Raise e.
Proof.
  induction 1 as [i items Hi|i items _ [e IH]]; simpl.
  - rewrite Hi. eauto.
  - rewrite IH. destruct (i_type i); eauto.
Qed.

(** C7. [_get_filtered_response] always returns a list and leaves the state
    alone; the list holds no item of type [searchResRef]; when the last
    response is a list of typed items, it is exactly the items whose type is
    not [searchResRef]; when reading the response raises (no connection
    object, no response, an item without a type) it is the empty list. *)
Theorem get_filtered_response_no_referrals (env : Env) (s : State) :
  ∃ l, _get_filtered_response env s = (Ok l, s)
    ∧ Forall (λ i, i_type i ≠ Some "searchResRef") l
    ∧ (∀ items,
         ldap_connection s = true → env_response env (trace s) = Some items →
         Forall (λ i, is_Some (i_type i)) items →
         l = filter (λ i, i_type i ≠ Some "searchResRef") items)
    ∧ (ldap_connection s = false
       ∨ env_response env (trace s) = None
       ∨ (∃ items, env_response env (trace s) = Some items
                   ∧ Exists (λ i, i_type i = None) items) →
       l = []).
Proof.
  unfold _get_filtered_response, try_catch, bind, connection_response, lift, ret.
  destruct (ldap_connection s) eqn:Hc.
  - destruct (env_response env (trace s)) as [items|] eqn:Hr.
    + destruct (not_search_res_ref items) as [l|e] eqn:Hf.
      * exists l. split; [done|]. split; [by eapply not_search_res_ref_sound|].
        split.
        -- intros items' _ [= <-] Hty.
           rewrite not_search_res_ref_typed in Hf by done. congruence.
        -- intros [?|[?|(items' & [= <-] & Hex)]]; [done..|].
           apply not_search_res_ref_untyped in Hex as [e He]. congruence.
      * exists []. split; [done|]. split; [constructor|]. split; [|done].
        intros items' _ [= <-] Hty.
        rewrite not_search_res_ref_typed in Hf by done. discriminate.
    + exists []. repeat split; [constructor | intros; discriminate].
  - exists []. repeat split; [constructor | intros; discriminate].
Qed.

Lemma get_filtered_response_no_referrals_witness :
  _get_filtered_response referral_env bound_state
  = (Ok [alice_entry; bob_entry], bound_state).
Proof.
  destruct (get_filtered_response_no_referrals referral_env bound_state)
    as (l & E & _ & H & _).
  rewrite E, (H [alice_entry; referral; bob_entry]); [reflexivity..|].
  repeat constructor; by eexists.
Defined.

(** ** The account-control flags *)

Lemma disabled_bit_mask i :
  0 ≤ i < 32 → i ≠ 1 → Z.testbit (Z.lxor 0xFFFFFFFF 0x02) i = true.
Proof.
  intros Hi Hne. rewrite Z.lxor_spec.
  change 0xFFFFFFFF with (Z.ones 32). change 0x02 with (2 ^ 1).
  rewrite Z.ones_spec_low by lia.
  rewrite Z.pow2_bits_false by lia. done.
Qed.

Lemma disable_keeps_other_bits uac i :
  i ≠ 1 → Z.testbit (mod_uac true uac) i = Z.testbit uac i.
Proof.
  intros Hne. unfold mod_uac. rewrite Z.lor_spec.
  change 0x02 with (2 ^ 1). rewrite Z.pow2_bits_false by lia.
  apply orb_false_r.
Qed.

Lemma enable_keeps_other_bits uac i :
  0 ≤ uac < 2 ^ 32 → i ≠ 1 →
  Z.testbit (mod_uac false uac) i = Z.testbit uac i.
Proof.
  intros Hu Hne. unfold mod_uac. rewrite Z.land_spec.
  destruct (Z.lt_ge_cases i 0) as [Hneg|Hnn].
  { by rewrite !Z.testbit_neg_r. }
  destruct (Z.lt_ge_cases i 32) as [Hlow|Hhigh].
  - rewrite disabled_bit_mask by lia. apply andb_true_r.
  - assert (Z.testbit uac i = false) as ->; [|done].
    rewrite <- (Z.mod_small uac (2 ^ 32)) by lia.
    apply Z.mod_pow2_bits_high. lia.
Qed.

Lemma enable_clears_disabled_bit uac : Z.testbit (mod_uac false uac) 1 = false.
Proof. unfold mod_uac. rewrite Z.land_spec. apply andb_false_r. Qed.

Lemma disable_range uac : 0 ≤ uac < 2 ^ 32 → 0 ≤ mod_uac true uac < 2 ^ 32.
Proof.
  intros [H0 H1]. unfold mod_uac. split; [apply Z.lor_nonneg; lia|].
  destruct (decide (uac = 0)) as [->|Hnz]; [done|].
  apply Z.log2_lt_pow2; [|rewrite Z.log2_lor by lia].
  - assert (0 ≤ Z.lor uac 2) by (apply Z.lor_nonneg; lia).
    assert (Z.lor uac 2 ≠ 0); [|lia]. rewrite Z.lor_eq_0_iff. lia.
  - apply Z.max_lub_lt; [apply Z.log2_lt_pow2; lia | done].
Qed.

(** C3, as amended.  In a directory that stores the account's flags [uac]:
    [disable_account] ends with a replace of the attribute by [uac | 0x02],
    [enable_account] with a replace by [uac & (0xFFFFFFFF ^ 0x02)];
    disabling leaves every bit other than bit 1 of the stored value as it
    was; for [0 ≤ uac < 2^32] so does enabling, and so does
    [disable_account] followed by [enable_account], which leaves bit 1
    clear. *)
Theorem account_status_changes_only_disabled_bit (uac : Z) (user : PVal) :
  let env := account_env uac in
  let param : gmap string PVal := {[ "user" := user ]} in
  let disabled := (handle_action env "disable_account" param initialize).2 in
  let enabled := (handle_action env "enable_account" param initialize).2 in
  let restored := (handle_action env "enable_account" param disabled).2 in
  last (trace disabled) = Some (OpModify user (uac_changes (Z.lor uac 0x02)))
  ∧ last (trace enabled)
    = Some (OpModify user (uac_changes (Z.land uac (Z.lxor 0xFFFFFFFF 0x02))))
  ∧ (∀ i, i ≠ 1 →
       Z.testbit (stored_uac uac (trace disabled)) i = Z.testbit uac i)
  ∧ (0 ≤ uac < 2 ^ 32 →
     (∀ i, i ≠ 1 →
        Z.testbit (stored_uac uac (trace enabled)) i = Z.testbit uac i)
     ∧ (∀ i, i ≠ 1 →
          Z.testbit (stored_uac uac (trace restored)) i = Z.testbit uac i)
     ∧ Z.testbit (stored_uac uac (trace restored)) 1 = false).
Proof.
  intros env param disabled enabled restored.
  assert (stored_uac uac (trace disabled) = mod_uac true uac) as Ed
    by reflexivity.
  assert (stored_uac uac (trace enabled) = mod_uac false uac) as Ee
    by reflexivity.
  assert (stored_uac uac (trace restored) = mod_uac false (mod_uac true uac))
    as Er by reflexivity.
  split; [reflexivity|]. split; [reflexivity|].
  rewrite Ed, Ee, Er. split.
  - intros i Hi. by apply disable_keeps_other_bits.
  - intros Hu. repeat split.
    + intros i Hi. by apply enable_keeps_other_bits.
    + intros i Hi.
      rewrite enable_keeps_other_bits by (by auto using disable_range).
      by apply disable_keeps_other_bits.
    + apply enable_clears_disabled_bit.
Qed.

Lemma account_status_changes_only_disabled_bit_witness :
  Z.testbit
    (stored_uac 512
       (trace (handle_action (account_env 512) "enable_account"
                 {[ "user" := PStr "CN=Alice,OU=Old,DC=x" ]}
                 (handle_action (account_env 512) "disable_account"
                    {[ "user" := PStr "CN=Alice,OU=Old,DC=x" ]} initialize).2).2))
    9
  = Z.testbit 512 9.
Proof.
  destruct (account_status_changes_only_disabled_bit 512
              (PStr "CN=Alice,OU=Old,DC=x")) as (_ & _ & _ & H).
  destruct H as (_ & H & _); [lia|]. apply H. lia.
Defined.

(** C3 as stated fails outside 32 bits.  With [2^32] stored,
    [enable_account] writes [0], so bit 32 is not left unchanged; with a
    negative value stored the bits from 32 up are cleared as well. *)
Lemma enable_account_clears_bit_32 :
  last (trace (handle_action (account_env (2 ^ 32)) "enable_account"
                 {[ "user" := PStr "CN=Alice,OU=Old,DC=x" ]} initialize).2)
  = Some (OpModify (PStr "CN=Alice,OU=Old,DC=x") (uac_changes 0))
  ∧ Z.testbit (2 ^ 32) 32 = true
  ∧ Z.testbit (Z.land (2 ^ 32) (Z.lxor 0xFFFFFFFF 0x02)) 32 = false
  ∧ Z.testbit (-1) 32 = true
  ∧ Z.testbit (Z.land (-1) (Z.lxor 0xFFFFFFFF 0x02)) 32 = false.
Proof. repeat split. Qed.

(** ** Dictionaries *)

Section dict_facts.
Context {K V : Type} `{EqDecision K}.
Implicit Types (d : list (K * V)) (k : K) (v : V).

Lemma dict_get_set d k k' v :
  dict_get (dict_set d k v) k'
  = if decide (k = k') then Some v else dict_get d k'.
Proof.
  induction d as [|[k0 v0] d IH]; simpl.
  - repeat case_decide; congruence.
  - repeat (case_decide; simpl); try congruence.
Qed.

Lemma dict_get_is_Some d k : is_Some (dict_get d k) ↔ k ∈ d.*1.
Proof.
  induction d as [|[k0 v0] d IH]; simpl.
  - split; [by intros [? ?] | by intros ?%elem_of_nil].
  - case_decide as Hk; rewrite elem_of_cons.
    + split; [by left | by eauto].
    + rewrite IH. naive_solver.
Qed.

Lemma dict_mem_spec d k : dict_mem d k = true ↔ k ∈ d.*1.
Proof.
  unfold dict_mem. rewrite <- dict_get_is_Some.
  split; [apply bool_decide_eq_true_1 | apply bool_decide_eq_true_2].
Qed.

Lemma dict_set_keys_in d k v : k ∈ d.*1 → (dict_set d k v).*1 = d.*1.
Proof.
  induction d as [|[k0 v0] d IH]; simpl; [by intros ?%elem_of_nil|].
  rewrite elem_of_cons. intros Hin. case_decide; simpl; [done|].
  f_equal. apply IH. naive_solver.
Qed.

Lemma dict_set_keys_notin d k v : k ∉ d.*1 → (dict_set d k v).*1 = d.*1 ++ [k].
Proof.
  induction d as [|[k0 v0] d IH]; simpl; [done|].
  rewrite not_elem_of_cons. intros [Hne Hnin].
  case_decide; simpl; [congruence|]. f_equal. by apply IH.
Qed.

Lemma dict_set_keys d k v :
  (dict_set d k v).*1 = if decide (k ∈ d.*1) then d.*1 else d.*1 ++ [k].
Proof.
  case_decide; [by apply dict_set_keys_in | by apply dict_set_keys_notin].
Qed.

(** Keys of a comprehension over [ks] (from an accumulator [d]). *)
Lemma foldl_dict_set_keys ks v d :
  NoDup d.*1 →
  NoDup (foldl (λ d k, dict_set d k v) d ks).*1
  ∧ ∀ k, k ∈ (foldl (λ d k, dict_set d k v) d ks).*1 ↔ k ∈ d.*1 ∨ k ∈ ks.
Proof.
  revert d. induction ks as [|k0 ks IH]; intros d Hd; simpl.
  - split; [done|]. intros k. rewrite elem_of_nil. naive_solver.
  - destruct (IH (dict_set d k0 v)) as [Hnd Hin].
    { rewrite dict_set_keys. case_decide; [done|].
      apply NoDup_app. split_and!; [done| |apply NoDup_singleton].
      intros x Hx ->%list_elem_of_singleton. done. }
    split; [done|]. intros k. rewrite Hin, dict_set_keys, elem_of_cons.
    case_decide; [naive_solver|].
    rewrite elem_of_app, list_elem_of_singleton. naive_solver.
Qed.

Lemma foldl_dict_set_values ks v d k x :
  (∀ k' x', dict_get d k' = Some x' → x' = v) →
  dict_get (foldl (λ d k, dict_set d k v) d ks) k = Some x → x = v.
Proof.
  revert d. induction ks as [|k0 ks IH]; intros d Hd; simpl; [by apply Hd|].
  apply IH. intros k' x'. rewrite dict_get_set.
  case_decide; [congruence | by apply Hd].
Qed.

Lemma dict_from_keys_keys ks v :
  NoDup (dict_from_keys ks v).*1
  ∧ ∀ k, k ∈ (dict_from_keys ks v).*1 ↔ k ∈ ks.
Proof.
  destruct (foldl_dict_set_keys ks v []) as [Hnd Hin]; [constructor|].
  split; [done|]. intros k. unfold dict_from_keys. rewrite Hin.
  simpl. rewrite elem_of_nil. naive_solver.
Qed.

Lemma dict_from_keys_get ks v k :
  k ∈ ks → dict_get (dict_from_keys ks v) k = Some v.
Proof.
  intros Hk. destruct (dict_from_keys_keys ks v) as [_ Hin].
  apply Hin, dict_get_is_Some in Hk as [x Hx]. rewrite Hx. f_equal.
  eapply foldl_dict_set_values; [|exact Hx]. by intros ??.
Qed.
End dict_facts.

(** ** Identifier resolution *)

Lemma entry_attr_named e name :
  entry_attr e "sAMAccountName" sAMAccountName = Ok name ↔ named e name.
Proof.
  unfold entry_attr, named. split.
  - destruct (e_attributes e) as [a|]; [|done].
    destruct (sAMAccountName a) eqn:?; [|done]. intros [= ->]. eauto.
  - intros (a & -> & ->). done.
Qed.

Section sam_fill_facts.
Implicit Types (r : list (PVal * option string)) (entries : list Entry).

(** The loop never adds or removes a key. *)
Lemma sam_fill_keys entries r r' : sam_fill r entries = Ok r' → r'.*1 = r.*1.
Proof.
  revert r. induction entries as [|e entries IH]; intros r; simpl.
  - by intros [= <-].
  - destruct (entry_attr e "sAMAccountName" sAMAccountName) as [s|]; [|done].
    destruct (dict_mem r (PStr s)) eqn:Hmem; [|by apply IH].
    destruct (entry_attr e "distinguishedName" distinguishedName) as [d|];
      [|done].
    intros ->%IH. apply dict_set_keys_in. by apply dict_mem_spec.
Qed.

(** A canonical identifier in the result was there before or comes from a
    hit named like its key. *)
Lemma sam_fill_values entries r r' k dn :
  sam_fill r entries = Ok r' → dict_get r' k = Some (Some dn) →
  dict_get r k = Some (Some dn)
  ∨ ∃ e name, e ∈ entries ∧ hit e name dn ∧ k = PStr name.
Proof.
  revert r. induction entries as [|e entries IH]; intros r; simpl.
  - intros [= <-]. by left.
  - destruct (entry_attr e "sAMAccountName" sAMAccountName) as [s|] eqn:Hs;
      [|done].
    assert (∀ r0, sam_fill r0 entries = Ok r' →
              dict_get r' k = Some (Some dn) →
              dict_get r0 k = Some (Some dn)
              ∨ ∃ e0 name, e0 ∈ e :: entries ∧ hit e0 name dn ∧ k = PStr name)
      as IH'.
    { intros r0 H0 Hk. destruct (IH r0 H0 Hk) as [?|(e0 & name & ? & ? & ?)];
        [by left|]. right. exists e0, name. by rewrite elem_of_cons; eauto. }
    destruct (dict_mem r (PStr s)); [|by apply IH'].
    destruct (entry_attr e "distinguishedName" distinguishedName) as [d|] eqn:Hd;
      [|done].
    intros Hfill Hk. destruct (IH' _ Hfill Hk) as [Hset|?]; [|by right].
    rewrite dict_get_set in Hset. case_decide as Hkey; [|by left].
    injection Hset as ->. right. exists e, s. split; [by left|].
    split; [|done]. unfold hit, entry_attr in *.
    destruct (e_attributes e) as [a|]; [|done]. exists a.
    destruct (sAMAccountName a); [|done].
    destruct (distinguishedName a); [|done]. by simplify_eq.
Qed.

(** A key no hit is named like keeps its value. *)
Lemma sam_fill_unmatched entries r r' k :
  sam_fill r entries = Ok r' →
  (∀ e name, e ∈ entries → named e name → k ≠ PStr name) →
  dict_get r' k = dict_get r k.
Proof.
  revert r. induction entries as [|e entries IH]; intros r; simpl.
  - by intros [= <-].
  - intros Hfill Hno.
    assert (∀ e0 name, e0 ∈ entries → named e0 name → k ≠ PStr name) as Hno'.
    { intros e0 name ?. apply Hno. by right. }
    destruct (entry_attr e "sAMAccountName" sAMAccountName) as [s|] eqn:Hs;
      [|done].
    destruct (dict_mem r (PStr s)); [|by apply IH].
    destruct (entry_attr e "distinguishedName" distinguishedName) as [d|];
      [|done].
    rewrite (IH _ Hfill Hno'), dict_get_set.
    case_decide as Hkey; [|done]. subst k.
    exfalso. eapply (Hno e s); [by left| |done]. by apply entry_attr_named.
Qed.
End sam_fill_facts.

(** C4. When [_sam_to_dn] returns a mapping [r] for the identifiers [sam], it
    has run the one search, and with [entries] what that search returned:
    the keys of [r] are the input identifiers, each once; a value of [r] that
    is not [False] is the canonical identifier of a hit whose short-form name
    is the key; an input that no hit is named like is mapped to [False]. *)
Theorem sam_to_dn_mapping (env : Env) (sam : list PVal)
    (action_result : option nat) (s s' : State)
    (r : list (PVal * option string)) :
  _sam_to_dn env sam action_result s = (Ok r, s') →
  ∃ entries s1,
    _query env (sam_param sam) s = (Ok entries, s1)
    ∧ NoDup r.*1
    ∧ (∀ k, k ∈ r.*1 ↔ k ∈ sam)
    ∧ r.*1 ≡ₚ remove_dups sam
    ∧ (∀ k dn, dict_get r k = Some (Some dn) →
         ∃ e name, e ∈ entries ∧ hit e name dn ∧ k = PStr name)
    ∧ (∀ k, k ∈ sam →
         (∀ e name, e ∈ entries → named e name → k ≠ PStr name) →
         dict_get r k = Some None).
Proof.
  unfold _sam_to_dn. intros E.
  apply bind_inv_Ok in E as (entries & s1 & Eq & E).
  apply bind_inv_Ok in E as (r0 & s2 & Efill & E).
  apply bind_inv_Ok in E as (? & s3 & _ & E).
  injection E as -> _. injection Efill as Efill _.
  exists entries, s1. split; [done|].
  destruct (dict_from_keys_keys (V:=option string) sam None) as [Hnd Hin].
  pose proof (sam_fill_keys _ _ _ Efill) as Hkeys.
  assert (NoDup r.*1) as Hnd' by (by rewrite Hkeys).
  assert (∀ k, k ∈ r.*1 ↔ k ∈ sam) as Hin' by (by rewrite Hkeys).
  split; [done|]. split; [done|]. split; [|split].
  - apply NoDup_Permutation; [done | apply NoDup_remove_dups|].
    intros k. by rewrite Hin', elem_of_remove_dups.
  - intros k dn Hk.
    destruct (sam_fill_values _ _ _ _ _ Efill Hk) as [Hinit|?]; [|done].
    assert (k ∈ sam) as Hks.
    { apply Hin, dict_get_is_Some. by eexists. }
    rewrite dict_from_keys_get in Hinit by done. discriminate.
  - intros k Hk Hno.
    rewrite (sam_fill_unmatched _ _ _ _ Efill Hno).
    by apply dict_from_keys_get.
Qed.

Lemma sam_to_dn_mapping_witness :
  dict_get [(PStr "alice", Some "CN=Alice,OU=Old,DC=x"); (PStr "bob", None)]
           (PStr "bob")
  = Some None.
Proof.
  destruct (sam_to_dn_mapping directory_env [PStr "alice"; PStr "bob"] None
              initialize
              (mkState true []
                 [OpServer; OpConnection; OpBind;
                  OpSearch (PStr "DC=x")
                    (PStr "(|(samaccountname=alice)(samaccountname=bob))")
                    ["distinguishedname"; "samaccountname"]])
              [(PStr "alice", Some "CN=Alice,OU=Old,DC=x"); (PStr "bob", None)])
    as (entries & s1 & E & _ & _ & _ & _ & H); [reflexivity|].
  apply H; [set_solver|].
  assert (entries = [alice_hit; g1_hit]) as -> by (by injection E).
  intros e name He (a & Ea & Hname).
  apply elem_of_cons in He as [->|He];
    [|apply list_elem_of_singleton in He as ->];
    injection Ea as <-; injection Hname as <-; discriminate.
Defined.

(** ** Handlers *)

Section handler_facts.
Variable env : Env.

Lemma param_get_Some (param : gmap string PVal) k v s :
  param !! k = Some v → param_get param k s = (Ok v, s).
Proof. unfold param_get. by intros ->. Qed.

(** [_ldap_bind()] looks at the connection and the history only. *)
Lemma ldap_bind_results l s :
  _ldap_bind env None (with_results l s)
  = ((_ldap_bind env None s).1, with_results l (_ldap_bind env None s).2).
Proof.
  destruct s as [c l0 t].
  unfold _ldap_bind, bind, try_catch, connection_live, gets, ret, call_bool,
    call, unbind, bind, gets, with_results, log_op.
  simpl.
  repeat (match goal with
          | |- context [if ?b then _ else _] => destruct b
          | |- context [match ?o with Some _ => _ | None => _ end] => destruct o
          end; simpl); reflexivity.
Qed.

Lemma bind_succeeds_results l s :
  bind_succeeds env (with_results l s) = bind_succeeds env s.
Proof. unfold bind_succeeds. by rewrite ldap_bind_results. Qed.

(** What the bind at the head of a handler does, from a state [s0] that
    differs from the entry state [s] in its action results only. *)
Lemma ldap_bind_from s0 s :
  ldap_connection s0 = ldap_connection s → trace s0 = trace s →
  ∃ s1, _ldap_bind env None s0 = (Ok (bind_succeeds env s), s1)
    ∧ action_results s1 = action_results s0
    ∧ trace s1 = trace (_ldap_bind env None s).2
    ∧ ∃ ops, trace s1 = trace s ++ ops ∧ forallb is_conn_op ops = true.
Proof.
  intros Hc Ht.
  assert (s0 = with_results (action_results s0) s) as Hs0.
  { destruct s0, s. simpl in *. by subst. }
  destruct (ldap_bind_total env s) as (b & s' & E).
  pose proof (ldap_bind_results (action_results s0) s) as H.
  rewrite <- Hs0, E in H. simpl in H.
  exists (with_results (action_results s0) s').
  unfold bind_succeeds. rewrite E. simpl.
  split; [rewrite H; by destruct b|]. split; [done|]. split; [done|].
  by apply (Quiet_ldap_bind env is_conn_op (λ o H, H)) in E as [? _].
Qed.

Lemma conn_ops_no_unlock ops d :
  forallb is_conn_op ops = true → OpUnlock d ∉ ops.
Proof.
  intros H Hin. apply list_elem_of_In in Hin.
  eapply forallb_forall in H; [|exact Hin]. done.
Qed.

(** C9. Without identifier resolution ([use_samaccountname] absent or
    false) the unlock handler returns [RetVal(APP_ERROR)] with its action
    result's status set to error, and calls nothing but session management:
    the unlock operation is never invoked.  When the bind succeeds the error
    recorded is the reference to the unassigned local [user_dn]. *)
Theorem unlock_account_without_resolution (param : gmap string PVal)
    (user : PVal) (s : State) :
  param !! "user" = Some user →
  param !! "use_samaccountname" = None
  ∨ param !! "use_samaccountname" = Some (PBool false) →
  ∃ s' r,
    _handle_unlock_account env param s = (Ok (PRetVal false), s')
    ∧ forallb is_conn_op (issued s s') = true
    ∧ (∀ d, OpUnlock d ∉ issued s s')
    ∧ action_results s' !! length (action_results s) = Some r
    ∧ ar_status r = Some false
    ∧ ar_exception r
      = if bind_succeeds env s then Some (UnboundLocalError "user_dn")
        else None.
Proof.
  intros Hu Hs.
  assert (truthy (default (PBool false) (param !! "use_samaccountname")) = false)
    as Hf by (by destruct Hs as [-> | ->]).
  unfold _handle_unlock_account.
  erewrite bind_Ok by reflexivity.
  erewrite bind_Ok by reflexivity.
  erewrite bind_Ok by (by apply param_get_Some).
  rewrite Hf. erewrite bind_Ok by reflexivity. cbv beta iota.
  match goal with
  | |- context [bind (_ldap_bind env None) _ ?s0] =>
      destruct (ldap_bind_from s0 s) as (s1 & Eb & Hres & _ & ops & Htr & Hops);
        [done..|]
  end.
  erewrite bind_Ok by exact Eb.
  assert (length (action_results s) < length (action_results s1))%nat as Hlen.
  { rewrite Hres. simpl. rewrite length_alter, length_app. simpl. lia. }
  apply lookup_lt_is_Some_2 in Hlen as [r1 Hr1].
  destruct (bind_succeeds env s); simpl.
  - erewrite bind_Ok by reflexivity. simpl.
    eexists _, _. split; [reflexivity|]. simpl. unfold issued. simpl.
    rewrite Htr. simpl. rewrite drop_app_length.
    split; [done|]. split; [intros d; by apply conn_ops_no_unlock|].
    rewrite list_lookup_alter_eq, Hr1. done.
  - erewrite bind_Ok by reflexivity. simpl.
    eexists _, _. split; [reflexivity|]. simpl. unfold issued. simpl.
    rewrite Htr. simpl. rewrite drop_app_length.
    split; [done|]. split; [intros d; by apply conn_ops_no_unlock|].
    rewrite list_lookup_alter_eq, Hr1. done.
Qed.

(** The bind at the head of a handler, taken when it succeeds. *)
Ltac bind_step s :=
  match goal with
  | |- context [bind (_ldap_bind env None) _ ?s0] =>
      let s1 := fresh "s1" in
      let Eb := fresh "Eb" in
      let Hres := fresh "Hres" in
      let Hs1 := fresh "Hs1" in
      let ops := fresh "ops" in
      let Htr := fresh "Htr" in
      let Hops := fresh "Hops" in
      destruct (ldap_bind_from s0 s) as (s1 & Eb & Hres & Hs1 & ops & Htr & Hops);
        [done..|];
      erewrite bind_Ok by exact Eb
  end.

(** C8, as amended.  When the bind succeeds and the identifier parses with
    first component [(attribute, value, separator)], the move handler issues,
    after session management, exactly one operation: a modify-DN of the
    object with new relative name [attribute=value] and the supplied
    [new_ou] as new superior. *)
Theorem move_object_rename (param : gmap string PVal) (obj : string)
    (new_ou : PVal) (attribute value separator : string)
    (rest : list (string * string * string)) (s : State) :
  param !! "object" = Some (PStr obj) →
  param !! "new_ou" = Some new_ou →
  parse_dn env obj = Ok ((attribute, value, separator) :: rest) →
  bind_succeeds env s = true →
  ∃ r s' conn_ops,
    _handle_move_object env param s = (Ok r, s')
    ∧ issued s s'
      = conn_ops ++ [OpModifyDn (PStr obj) (attribute +:+ "=" +:+ value) new_ou]
    ∧ forallb is_conn_op conn_ops = true.
Proof.
  intros Ho Hn Hp Hb. unfold _handle_move_object.
  erewrite bind_Ok by reflexivity.
  erewrite bind_Ok by (by apply param_get_Some).
  erewrite bind_Ok by (by apply param_get_Some).
  bind_step s. rewrite Hb. simpl.
  unfold bind, try_catch, lift, call_bool, call, gets, first_rdn, ret, bind.
  rewrite Hp. simpl.
  assert (∀ s2, trace s2 = trace s1 ++ [OpModifyDn (PStr obj)
                                         (attribute +:+ "=" +:+ value) new_ou] →
            issued s s2 = ops ++ [OpModifyDn (PStr obj)
                                    (attribute +:+ "=" +:+ value) new_ou]) as Hiss.
  { intros s2 H2. unfold issued.
    by rewrite H2, Htr, <- app_assoc, drop_app_length. }
  destruct (env_raises env _); simpl.
  - eexists _, _, ops. split; [reflexivity|]. split; [by apply Hiss|done].
  - destruct (env_returns env _); simpl.
    + eexists _, _, ops. split; [reflexivity|]. split; [by apply Hiss|done].
    + eexists _, _, ops. split; [reflexivity|]. split; [by apply Hiss|done].
Qed.

(** C10, as amended.  With an [action] that is none of ["ADD"], ["DELETE"],
    ["REPLACE"], when the bind succeeds and the modify call returns, the
    handler has issued, after session management, one modify of the target
    with an empty change set; it records what the call returned as the
    ["modified"] data value and ends with success status. *)
Theorem set_attribute_unvalidated_action (param : gmap string PVal)
    (user attribute value action : PVal) (s : State) :
  param !! "user" = Some user →
  param !! "attribute" = Some attribute →
  param !! "value" = Some value →
  param !! "action" = Some action →
  action ≠ PStr "ADD" → action ≠ PStr "DELETE" → action ≠ PStr "REPLACE" →
  bind_succeeds env s = true →
  env_raises env (trace (_ldap_bind env None s).2 ++ [OpModify user []]) = None →
  ∃ s' r conn_ops,
    _handle_set_attribute env param s = (Ok (PRetVal true), s')
    ∧ issued s s' = conn_ops ++ [OpModify user []]
    ∧ forallb is_conn_op conn_ops = true
    ∧ action_results s' !! length (action_results s) = Some r
    ∧ ar_data r = [DModified (env_returns env (trace s'))]
    ∧ ar_status r = Some true.
Proof.
  intros Hu Ha Hv Hact Hadd Hdel Hrep Hb Hret. unfold _handle_set_attribute.
  erewrite bind_Ok by reflexivity.
  do 4 erewrite bind_Ok by (by apply param_get_Some).
  assert (set_attribute_changes action attribute value = []) as ->.
  { unfold set_attribute_changes. by rewrite !bool_decide_eq_false_2. }
  bind_step s. rewrite Hb. simpl.
  unfold bind, try_catch, call_bool, call, gets, ret, bind. simpl.
  rewrite <- Hs1 in Hret. rewrite Hret. simpl.
  assert (action_results s1 !! length (action_results s)
          = Some (new_action_result param)) as Hr1.
  { rewrite Hres. simpl. by rewrite lookup_app_r, Nat.sub_diag. }
  eexists _, _, ops. split; [reflexivity|]. simpl.
  split; [|split; [done|]].
  { unfold issued. simpl. by rewrite Htr, <- app_assoc, drop_app_length. }
  rewrite !list_lookup_alter_eq, Hr1. simpl. done.
Qed.

(** *** Account status *)

Lemma Traces_handle_query param : Traces is_session_op (_handle_query env param).
Proof.
  unfold _handle_query.
  apply Traces_bind; [by apply Traces_same_trace|]. intros ar.
  apply Traces_bind; [by apply Traces_same_trace|]. intros _.
  apply Traces_bind.
  { apply Traces_try_catch.
    - apply Traces_bind; [apply Quiet_Traces, Quiet_query|].
      intros resp. by apply Traces_same_trace.
    - intros e. apply Traces_bind; [by apply Traces_same_trace|].
      intros is_instance. destruct (is_instance e);
        (apply Traces_bind; [by apply Traces_same_trace|]);
        intros ?; by apply Traces_same_trace. }
  intros [resp|r]; [|by apply Traces_same_trace].
  apply Traces_bind; [by apply Traces_same_trace|]. intros _.
  apply Traces_bind.
  { apply Traces_same_trace. intros s0.
    destruct (_get_filtered_response env s0) as [r0 s0'] eqn:E.
    by apply get_filtered_response_state in E as [-> _]. }
  intros found.
  apply Traces_bind; [by apply Traces_same_trace|]. intros _.
  apply Traces_bind; [by apply Traces_same_trace|]. intros ?.
  by apply Traces_same_trace.
Qed.

(** Whatever the directory does, the account-status handler issues session
    management and searches, and then at most one modification: a replace of
    [userAccountControl] on the user by [mod_uac] of the value read from the
    first item of the filtered response. *)
Lemma account_status_issues (param : gmap string PVal) (disable : bool)
    (s s' : State) (r : Res PyRet) :
  _handle_account_status env param disable s = (r, s') →
  ∃ session_ops,
    forallb is_session_op session_ops = true
    ∧ (issued s s' = session_ops
       ∨ ∃ user s2 resp uac,
           param !! "user" = Some user
           ∧ _get_filtered_response env s2 = (Ok resp, s2)
           ∧ first_uac resp = Ok uac
           ∧ issued s s'
             = session_ops
               ++ [OpModify user (uac_changes (mod_uac disable uac))]).
Proof.
  intros E. unfold _handle_account_status in E.
  erewrite bind_Ok in E by reflexivity.
  match type of E with
  | context [bind (_ldap_bind env None) _ ?s0] =>
      destruct (ldap_bind_from s0 s) as (s1 & Eb & _ & _ & ops & Htr & Hops);
        [done..|];
      erewrite bind_Ok in E by exact Eb
  end.
  apply conn_ops_session in Hops.
  assert (∀ tail s3, trace s3 = trace s1 ++ tail → issued s s3 = ops ++ tail)
    as Hiss.
  { intros tail s3 H3. unfold issued. by rewrite H3, Htr, <- app_assoc, drop_app_length. }
  destruct (bind_succeeds env s); cbn [negb] in E.
  2:{ cbv [bind set_status ret] in E. injection E as <- <-.
      exists ops. split; [done|]. left.
      rewrite (Hiss []); by rewrite app_nil_r. }
  unfold param_get in E. destruct (param !! "user") as [user|] eqn:Hu.
  2:{ cbv [bind raise] in E. injection E as <- <-.
      exists ops. split; [done|]. left.
      rewrite (Hiss []); by rewrite app_nil_r. }
  erewrite bind_Ok in E by reflexivity.
  unfold bind at 1, try_catch, bind at 1 in E.
  destruct (_handle_query env _ s1) as [[rq|e] s2] eqn:Eq;
    apply Traces_handle_query in Eq as (ops2 & Htr2 & Hops2).
  2:{ cbv [bind set_status ret] in E. injection E as <- <-.
      exists (ops ++ ops2).
      split; [by rewrite forallb_app, Hops, Hops2|]. left.
      by apply Hiss. }
  unfold bind at 1 in E.
  destruct (_get_filtered_response env s2) as [rf s2'] eqn:Ef.
  pose proof Ef as Ef'.
  apply get_filtered_response_state in Ef' as [-> [resp ->]].
  unfold bind at 1, lift in E.
  destruct (first_uac resp) as [uac|e] eqn:Huac.
  2:{ cbv [bind set_status ret] in E. injection E as <- <-.
      exists (ops ++ ops2).
      split; [by rewrite forallb_app, Hops, Hops2|]. left.
      by apply Hiss. }
  exists (ops ++ ops2). split; [by rewrite forallb_app, Hops, Hops2|].
  right. exists user, s2, resp, uac.
  split; [done|]. split; [done|]. split; [done|].
  rewrite <- app_assoc. apply Hiss. rewrite app_assoc, <- Htr2.
  unfold bind, call_bool, call, bind, gets, ret in E. simpl in E.
  destruct (env_raises env _); [by injection E as <- <-|].
  destruct (env_returns env _); by injection E as <- <-.
Qed.

(** *** Group membership *)

Lemma upd_ar_append_nil ar s : upd_ar ar (append_data []) s = s.
Proof.
  destruct s as [c l t]. unfold upd_ar. simpl. f_equal.
  apply list_alter_id. intros [? ? ? ? d ?]. unfold append_data. simpl.
  by rewrite app_nil_r.
Qed.

Lemma upd_ar_append_append ar l1 l2 s :
  upd_ar ar (append_data l2) (upd_ar ar (append_data l1) s)
  = upd_ar ar (append_data (l1 ++ l2)) s.
Proof.
  unfold upd_ar. simpl. f_equal. rewrite list_alter_alter_eq.
  apply list_alter_ext; [|done]. intros r _. unfold append_data. simpl.
  by rewrite app_assoc.
Qed.

(** The inner loop: one record per group for the member [i]. *)
Lemma for_each_groups ar func i groups s :
  for_each groups (λ j, add_data ar (DGroup i j func)) s
  = (Ok tt, upd_ar ar (append_data ((λ j, DGroup i j func) <$> groups)) s).
Proof.
  revert s. induction groups as [|j groups IH]; intros s; simpl.
  - by rewrite upd_ar_append_nil.
  - erewrite bind_Ok by reflexivity. rewrite IH. f_equal.
    apply (upd_ar_append_append ar [DGroup i j func]).
Qed.

(** The nested loops: the records of all pairs, members outermost. *)
Lemma for_each_members ar func members groups s :
  for_each members (λ i, for_each groups (λ j, add_data ar (DGroup i j func))) s
  = (Ok tt, upd_ar ar (append_data (group_records func members groups)) s).
Proof.
  revert s. induction members as [|i members IH]; intros s; simpl.
  - by rewrite upd_ar_append_nil.
  - erewrite bind_Ok by apply for_each_groups. rewrite IH. f_equal.
    apply upd_ar_append_append.
Qed.

Lemma group_records_length func members groups :
  length (group_records func members groups)
  = (length members * length groups)%nat.
Proof.
  unfold group_records. induction members as [|i members IH]; [done|].
  rewrite bind_cons, length_app, length_fmap, IH. done.
Qed.

(** Lines 200-238 from any state: the one extended operation is attempted;
    the status is success exactly when it did not raise, and then the
    records of all pairs have been appended. *)
Lemma apply_group_members_spec ar add members groups s r0 :
  action_results s !! ar = Some r0 →
  ∃ b s' r1,
    apply_group_members env ar add members groups s = (Ok (PRetVal b), s')
    ∧ trace s' = trace s ++ [group_op add members groups]
    ∧ (b = true ↔ env_raises env (trace s') = None)
    ∧ action_results s' !! ar = Some r1
    ∧ ar_status r1 = Some b
    ∧ (b = true →
       ar_data r1 = ar_data r0 ++ group_records (group_func add) members groups).
Proof.
  intros Hr0. unfold apply_group_members, bind, try_catch, call, ret. simpl.
  destruct (env_raises env (trace s ++ [group_op add members groups]))
    as [e|] eqn:Hraise; simpl.
  - eexists false, _, _. split; [reflexivity|]. simpl.
    rewrite list_lookup_alter_eq, Hr0. simpl. rewrite Hraise.
    split; [done|]. split; [done|]. split; [reflexivity|]. done.
  - rewrite for_each_members. simpl.
    eexists true, _, _. split; [reflexivity|]. simpl.
    rewrite !list_lookup_alter_eq, Hr0. simpl. rewrite Hraise.
    split; [done|]. split; [done|]. split; [reflexivity|]. done.
Qed.

Lemma session_ops_no_group ops o :
  forallb is_session_op ops = true → o ∈ ops → is_group_op o = false.
Proof.
  intros H Hin. apply list_elem_of_In in Hin.
  eapply forallb_forall in H; [|exact Hin]. by destruct o.
Qed.

(** C2. With identifier resolution requested, once the bind has succeeded
    and both lists have been resolved to [n_members] and [n_groups]: if
    either is empty the handler returns with error status having issued
    session management and searches only, hence no group-membership
    operation; if neither is empty, however many identifiers were requested,
    it goes on to attempt exactly the group-membership operation on the
    resolved lists, and the status is success unless that operation
    raises. *)
Theorem group_members_resolution_threshold (param : gmap string PVal)
    (add : bool) (members groups : string) (n_members n_groups : list string)
    (s s2 : State) :
  param !! "members" = Some (PStr members) →
  param !! "groups" = Some (PStr groups) →
  truthy (default (PBool false) (param !! "use_samaccountname")) = true →
  bind_succeeds env s = true →
  resolve_members_groups env (length (action_results s))
    (split_strip members) (split_strip groups) (group_members_entry env param s)
  = (Ok (n_members, n_groups), s2) →
  ∃ b s' r session_ops,
    _handle_group_members env param add s = (Ok (PRetVal b), s')
    ∧ action_results s' !! length (action_results s) = Some r
    ∧ ar_status r = Some b
    ∧ forallb is_session_op session_ops = true
    ∧ (n_members = [] ∨ n_groups = [] →
       b = false ∧ issued s s' = session_ops
       ∧ ∀ o, o ∈ issued s s' → is_group_op o = false)
    ∧ (n_members ≠ [] → n_groups ≠ [] →
       issued s s' = session_ops ++ [group_op add n_members n_groups]
       ∧ (b = true ↔ env_raises env (trace s') = None)).
Proof.
  intros Hm Hg Ht Hb Hres. unfold _handle_group_members.
  erewrite bind_Ok by reflexivity.
  bind_step s. rewrite Hb. simpl.
  erewrite bind_Ok by (by apply param_get_Some).
  erewrite bind_Ok by reflexivity.
  erewrite bind_Ok by (by apply param_get_Some).
  erewrite bind_Ok by reflexivity.
  rewrite Ht.
  unfold group_members_entry in Hres. simpl in Hres.
  rewrite Eb in Hres. simpl in Hres.
  erewrite bind_Ok by exact Hres. cbv beta iota.
  pose proof (Quiet_resolve_members_groups env _ _ _ _ _ _ Hres)
    as [(ops2 & Htr2 & Hops2) HR].
  assert (action_results s1 !! length (action_results s)
          = Some (new_action_result param)) as Hr1.
  { rewrite Hres0. simpl. by rewrite lookup_app_r, Nat.sub_diag. }
  destruct (Forall2_lookup_l _ _ _ _ _ HR Hr1) as (r2 & Hr2 & _).
  assert (forallb is_session_op (ops ++ ops2) = true) as Hsess.
  { by rewrite forallb_app, conn_ops_session, Hops2. }
  assert (∀ tail s3, trace s3 = trace s2 ++ tail →
            issued s s3 = (ops ++ ops2) ++ tail) as Hiss.
  { intros tail s3 H3. unfold issued.
    by rewrite H3, Htr2, Htr, <- !app_assoc, drop_app_length. }
  destruct (bool_decide (n_members = [] ∨ n_groups = [])) eqn:Hempty.
  - apply bool_decide_eq_true_1 in Hempty.
    assert ((0 <? length n_members)%nat && (0 <? length n_groups)%nat = false)
      as ->.
    { destruct Hempty as [-> | ->]; [done | apply andb_false_r]. }
    erewrite bind_Ok by reflexivity.
    eexists false, _, _, (ops ++ ops2). split; [reflexivity|]. simpl.
    rewrite list_lookup_alter_eq, Hr2. simpl.
    split; [reflexivity|]. split; [done|]. split; [done|].
    assert (issued s (upd_ar (length (action_results s))
                        (λ r, mkAR (ar_param r) (Some false) "" None
                                   (ar_data r) (ar_summary r)) s2)
            = ops ++ ops2) as Hi.
    { rewrite (Hiss []); [by rewrite app_nil_r | by rewrite app_nil_r]. }
    split.
    + intros _. split; [done|]. split; [exact Hi|].
      intros o. rewrite Hi. by apply session_ops_no_group.
    + intros Hnm Hng. by destruct Hempty.
  - apply bool_decide_eq_false_1 in Hempty.
    assert ((0 <? length n_members)%nat && (0 <? length n_groups)%nat = true)
      as ->.
    { destruct n_members, n_groups; try done; exfalso; apply Hempty; auto. }
    destruct (apply_group_members_spec _ add n_members n_groups _ _ Hr2)
      as (b & s' & r1 & Eapp & Htr' & Hbr & Hr1' & Hst & _).
    exists b, s', r1, (ops ++ ops2).
    split; [done|]. split; [done|]. split; [done|]. split; [done|].
    split; [intros ?; by exfalso|]. intros _ _. split; [by apply Hiss|done].
Qed.

(** C5. A successful add or remove of group members has attempted exactly
    one group-membership operation, on final lists [members] and [groups]
    (the split parameters, or what they resolved to), and its action result
    holds exactly the records of [members] x [groups], members outermost,
    each with the function applied (["added"] or ["removed"]): [N * M]
    records for [N] members and [M] groups, whichever of the two actions ran
    and whether or not resolution was used. *)
Theorem group_members_data_records (param : gmap string PVal) (add : bool)
    (s s' : State) :
  _handle_group_members env param add s = (Ok (PRetVal true), s') →
  ∃ members groups session_ops r,
    issued s s' = session_ops ++ [group_op add members groups]
    ∧ forallb is_session_op session_ops = true
    ∧ action_results s' !! length (action_results s) = Some r
    ∧ ar_status r = Some true
    ∧ ar_data r
      = group_records (if add then "added" else "removed") members groups
    ∧ length (ar_data r) = (length members * length groups)%nat
    ∧ ∃ ms gs,
        param !! "members" = Some (PStr ms) ∧ param !! "groups" = Some (PStr gs)
        ∧ if truthy (default (PBool false) (param !! "use_samaccountname"))
          then ∃ s2,
                 resolve_members_groups env (length (action_results s))
                   (split_strip ms) (split_strip gs)
                   (group_members_entry env param s)
                 = (Ok (members, groups), s2)
          else members = split_strip ms ∧ groups = split_strip gs.
Proof.
  intros E. unfold _handle_group_members in E.
  erewrite bind_Ok in E by reflexivity.
  match type of E with
  | context [bind (_ldap_bind env None) _ ?s0] =>
      destruct (ldap_bind_from s0 s) as (s1 & Eb & Hres & _ & ops & Htr & Hops);
        [done..|];
      erewrite bind_Ok in E by exact Eb
  end.
  destruct (bind_succeeds env s) eqn:Hb; cbn [negb] in E; [|discriminate].
  apply bind_inv_Ok in E as (mv & sa & Em & E). unfold param_get in Em.
  destruct (param !! "members") as [mv'|] eqn:Hm; [|discriminate].
  injection Em as <- <-.
  apply bind_inv_Ok in E as (members0 & sa & Em & E).
  destruct mv' as [ms| |]; try discriminate. injection Em as <- <-.
  apply bind_inv_Ok in E as (gv & sa & Eg & E). unfold param_get in Eg.
  destruct (param !! "groups") as [gv'|] eqn:Hg; [|discriminate].
  injection Eg as <- <-.
  apply bind_inv_Ok in E as (groups0 & sa & Eg & E).
  destruct gv' as [gs| |]; try discriminate. injection Eg as <- <-.
  assert (action_results s1 !! length (action_results s)
          = Some (new_action_result param)) as Hr1.
  { rewrite Hres. simpl. by rewrite lookup_app_r, Nat.sub_diag. }
  destruct (truthy (default (PBool false) (param !! "use_samaccountname")))
    eqn:Ht.
  - apply bind_inv_Ok in E as ([n_members n_groups] & s2 & Hresolve & E).
    cbv beta iota in E.
    destruct ((0 <? length n_members)%nat && (0 <? length n_groups)%nat);
      [|discriminate].
    pose proof (Quiet_resolve_members_groups env _ _ _ _ _ _ Hresolve)
      as [(ops2 & Htr2 & Hops2) HR].
    destruct (Forall2_lookup_l _ _ _ _ _ HR Hr1) as (r2 & Hr2 & Hsum).
    destruct (apply_group_members_spec _ add n_members n_groups _ _ Hr2)
      as (b & s'' & r1 & Eapp & Htr' & _ & Hr1' & Hst & Hdata).
    rewrite Eapp in E. injection E as -> ->.
    exists n_members, n_groups, (ops ++ ops2), r1.
    assert (ar_data r1 = group_records (group_func add) n_members n_groups)
      as Hd.
    { rewrite Hdata by done. destruct Hsum as (_ & _ & _ & _ & ->). done. }
    split.
    { unfold issued.
      by rewrite Htr', Htr2, Htr, <- !app_assoc, drop_app_length. }
    split; [by rewrite forallb_app, conn_ops_session, Hops2|].
    split; [done|]. split; [done|]. split; [done|].
    split; [by rewrite Hd, group_records_length|].
    exists ms, gs. split; [done|]. split; [done|]. exists s2.
    unfold group_members_entry. simpl. by rewrite Eb.
  - destruct (apply_group_members_spec _ add (split_strip ms) (split_strip gs)
                _ _ Hr1)
      as (b & s'' & r1 & Eapp & Htr' & _ & Hr1' & Hst & Hdata).
    rewrite Eapp in E. injection E as -> ->.
    exists (split_strip ms), (split_strip gs), ops, r1.
    assert (ar_data r1
            = group_records (group_func add) (split_strip ms) (split_strip gs))
      as Hd by (by rewrite Hdata).
    split; [unfold issued; by rewrite Htr', Htr, <- !app_assoc, drop_app_length|].
    split; [by apply conn_ops_session|].
    split; [done|]. split; [done|]. split; [done|].
    split; [by rewrite Hd, group_records_length|].
    exists ms, gs. done.
Qed.

End handler_facts.

(** ** The theorems at sample inputs *)

Lemma unlock_account_without_resolution_witness :
  ∃ s', _handle_unlock_account quiet_env unlock_param initialize
        = (Ok (PRetVal false), s').
Proof.
  destruct (unlock_account_without_resolution quiet_env unlock_param
              (PStr "alice") initialize) as (s' & r & E & _);
    [reflexivity | by left |].
  by exists s'.
Defined.

Lemma move_object_rename_witness :
  ∃ r s' conn_ops,
    _handle_move_object quiet_env move_param initialize = (Ok r, s')
    ∧ issued initialize s'
      = conn_ops ++ [OpModifyDn (PStr "CN=Alice,OU=Old,DC=x") "CN=Alice"
                       (PStr "OU=New,DC=x")]
    ∧ forallb is_conn_op conn_ops = true.
Proof.
  apply (move_object_rename quiet_env move_param "CN=Alice,OU=Old,DC=x"
           (PStr "OU=New,DC=x") "CN" "Alice" ","
           [("OU", "Old", ","); ("DC", "x", "")]); reflexivity.
Defined.

Lemma set_attribute_unvalidated_action_witness :
  ∃ s', _handle_set_attribute quiet_env (set_attribute_param "FROB") initialize
        = (Ok (PRetVal true), s').
Proof.
  destruct (set_attribute_unvalidated_action quiet_env
              (set_attribute_param "FROB") (PStr "CN=Alice,OU=Old,DC=x")
              (PStr "mail") (PStr "alice@x") (PStr "FROB") initialize)
    as (s' & r & ops & E & _); [reflexivity.. | discriminate
                               | discriminate | discriminate
                               | reflexivity | reflexivity |].
  by exists s'.
Defined.

Lemma group_members_resolution_threshold_witness :
  ∃ b s', _handle_group_members directory_env partial_param true initialize
          = (Ok (PRetVal b), s').
Proof.
  edestruct (group_members_resolution_threshold directory_env partial_param
               true "alice;bob" "g1") with (s := initialize)
    as (b & s' & r & ops & E & _);
    [reflexivity | reflexivity | reflexivity | reflexivity
     | vm_compute; reflexivity |].
  by exists b, s'.
Defined.

Lemma group_members_data_records_witness :
  ∃ r, action_results
         (_handle_group_members quiet_env pairs_param false initialize).2 !! 0%nat
       = Some r
     ∧ length (ar_data r) = 6%nat.
Proof.
  edestruct (group_members_data_records quiet_env pairs_param false initialize)
    as (members & groups & ops & r & _ & _ & Hr & _ & _ & Hlen
        & ms & gs & Hm & Hg & Hsel); [reflexivity|].
  exists r. split; [exact Hr|]. rewrite Hlen.
  injection Hm as <-. injection Hg as <-.
  destruct Hsel as [-> ->]. reflexivity.
Defined.

(** ** Where the handlers part from the protocol *)

(** C8 as stated fails when the server cannot be reached: the handler
    returns [RetVal(APP_ERROR)] and no modify-DN operation is issued. *)
Lemma move_object_unreachable_issues_nothing :
  (_handle_move_object unreachable_env move_param initialize).1
  = Ok (PRetVal false)
  ∧ trace (_handle_move_object unreachable_env move_param initialize).2
    = [OpServer; OpConnection; OpBind]
  ∧ parse_dn unreachable_env "CN=Alice,OU=Old,DC=x"
    = Ok [("CN", "Alice", ","); ("OU", "Old", ","); ("DC", "x", "")].
Proof. repeat split. Qed.

(** C10 as stated fails in two ways.  When the modify call raises, the
    [except] clause sets the error status and falls through to the unassigned
    [ret]: nothing is recorded and no success status is set.  When the server
    cannot be reached, no modify is issued and the status is never set. *)
Lemma set_attribute_unknown_action_without_success :
  (_handle_set_attribute rejecting_env (set_attribute_param "FROB") initialize).1
  = Raise (UnboundLocalError "ret")
  ∧ (ar_status <$> action_results
       (_handle_set_attribute rejecting_env (set_attribute_param "FROB")
          initialize).2)
    = [Some false]
  ∧ (ar_data <$> action_results
       (_handle_set_attribute rejecting_env (set_attribute_param "FROB")
          initialize).2)
    = [[]]
  ∧ (_handle_set_attribute unreachable_env (set_attribute_param "FROB")
       initialize).1
    = Ok (PStatus false)
  ∧ trace (_handle_set_attribute unreachable_env (set_attribute_param "FROB")
             initialize).2
    = [OpServer; OpConnection; OpBind]
  ∧ (ar_status <$> action_results
       (_handle_set_attribute unreachable_env (set_attribute_param "FROB")
          initialize).2)
    = [None].
Proof. repeat split. Qed.

(** C1 fails on the code: exceptions leave [handle_action].  The search
    raising inside [get_attributes] is not caught (no status is set); a
    failed bind in [reset_password] ends in an exception; a raising
    password change sets the error status and then raises from the
    [RetVal] call; a raising modify in [set_attribute] sets the error status
    and then raises from the unassigned [ret]. *)
Theorem faults_reach_the_host :
  (handle_action rejecting_env "get_attributes" attributes_param initialize).1
  = Raise (LDAPException "operation rejected")
  ∧ (ar_status <$> action_results
       (handle_action rejecting_env "get_attributes" attributes_param
          initialize).2)
    = [None]
  ∧ (handle_action unreachable_env "reset_password" reset_param initialize).1
    = Raise (AttributeError "result")
  ∧ (handle_action rejecting_env "reset_password" reset_param initialize).1
    = Raise (TypeError "__new__")
  ∧ (handle_action rejecting_env "set_attribute" (set_attribute_param "ADD")
       initialize).1
    = Raise (UnboundLocalError "ret").
Proof. repeat split. Qed.

(** C6 fails on the code: after a modify-DN call that reports success,
    [move_object] returns nothing and its action result never gets a status.
    A failed bind in [get_attributes] and [set_attribute] also returns
    without a status. *)
Theorem move_object_success_is_not_finalized :
  (handle_action quiet_env "move_object" move_param initialize).1 = Ok PNone
  ∧ (ar_status <$> action_results
       (handle_action quiet_env "move_object" move_param initialize).2)
    = [None]
  ∧ last (trace (handle_action quiet_env "move_object" move_param initialize).2)
    = Some (OpModifyDn (PStr "CN=Alice,OU=Old,DC=x") "CN=Alice"
              (PStr "OU=New,DC=x"))
  ∧ (handle_action unreachable_env "get_attributes" attributes_param
       initialize).1
    = Ok (PStatus false)
  ∧ (ar_status <$> action_results
       (handle_action unreachable_env "get_attributes" attributes_param
          initialize).2)
    = [None].
Proof. repeat split. Qed.


(** * Further properties of the connector *)

(** ** Earlier action results and the call history are kept *)

Lemma kept_refl n s : (n ≤ length (action_results s))%nat → kept n s s.
Proof. by intros. Qed.

Lemma kept_trans n s1 s2 s3 : kept n s1 s2 → kept n s2 s3 → kept n s1 s3.
Proof.
  intros (L1 & T1 & P1) (L2 & T2 & P2). split; [done|].
  split; [congruence | by etrans].
Qed.

Section keeps_rules.
Context {A B : Type} (n : nat).

Lemma Keeps_ret (a : A) : Keeps n (ret a).
Proof. intros s r s' Hn [= <- <-]. by apply kept_refl. Qed.

Lemma Keeps_raise (e : Exn) : Keeps n (@raise A e).
Proof. intros s r s' Hn [= <- <-]. by apply kept_refl. Qed.

Lemma Keeps_gets (f : State → A) : Keeps n (gets f).
Proof. intros s r s' Hn [= <- <-]. by apply kept_refl. Qed.

Lemma Keeps_lift (r0 : Res A) : Keeps n (lift r0).
Proof. intros s r s' Hn [= <- <-]. by apply kept_refl. Qed.

Lemma Keeps_bind (m : M A) (k : A → M B) :
  Keeps n m → (∀ a, Keeps n (k a)) → Keeps n (bind m k).
Proof.
  intros Hm Hk s r s' Hn E. unfold bind in E.
  destruct (m s) as [[a|e] s1] eqn:Em.
  - pose proof (Hm _ _ _ Hn Em) as H1. eapply kept_trans; [exact H1|].
    eapply Hk; [|exact E]. by destruct H1.
  - injection E as <- <-. by eapply Hm.
Qed.

Lemma Keeps_try_catch (m : M A) (h : Exn → M A) :
  Keeps n m → (∀ e, Keeps n (h e)) → Keeps n (try_catch m h).
Proof.
  intros Hm Hh s r s' Hn E. unfold try_catch in E.
  destruct (m s) as [[a|e] s1] eqn:Em.
  - injection E as <- <-. by eapply Hm.
  - pose proof (Hm _ _ _ Hn Em) as H1. eapply kept_trans; [exact H1|].
    eapply Hh; [|exact E]. by destruct H1.
Qed.

(** The handle of a new action result lies beyond the kept ones. *)
Lemma Keeps_add_action_result param (k : nat → M B) :
  (∀ ar, (n ≤ ar)%nat → Keeps n (k ar)) →
  Keeps n (bind (add_action_result param) k).
Proof.
  intros Hk s r s' Hn E. unfold bind, add_action_result in E.
  eapply kept_trans; [|eapply (Hk _ Hn); [|exact E]].
  - split; simpl; [rewrite length_app; lia|].
    split; [by rewrite take_app_le | done].
  - simpl. rewrite length_app. lia.
Qed.

Lemma Keeps_upd_ar ar f (a : A) :
  (n ≤ ar)%nat → Keeps n (λ s, (Ok a, upd_ar ar f s)).
Proof.
  intros Har s r s' Hn [= <- <-]. split; simpl; [by rewrite length_alter|].
  split; [by apply take_alter_ge | done].
Qed.
End keeps_rules.

Create HintDb keeps discriminated.

Section keeps_methods.
Variable env : Env.
Variable n : nat.

Lemma Keeps_same_state {A} (f : State → Res A) : Keeps n (λ s, (f s, s)).
Proof. intros s r s' Hn [= <- <-]. by apply kept_refl. Qed.

Lemma Keeps_set_status ar st msg e : (n ≤ ar)%nat → Keeps n (set_status ar st msg e).
Proof. apply Keeps_upd_ar. Qed.

Lemma Keeps_add_data ar d : (n ≤ ar)%nat → Keeps n (add_data ar d).
Proof. apply Keeps_upd_ar. Qed.

Lemma Keeps_update_summary ar d : (n ≤ ar)%nat → Keeps n (update_summary ar d).
Proof. apply Keeps_upd_ar. Qed.

Lemma Keeps_summary_set ar k v : (n ≤ ar)%nat → Keeps n (summary_set ar k v).
Proof. apply Keeps_upd_ar. Qed.

Lemma Keeps_get_status ar : Keeps n (get_status ar).
Proof. apply Keeps_gets. Qed.

Lemma Keeps_call o : Keeps n (call env o).
Proof.
  intros s r s' Hn E. unfold call in E.
  assert (s' = log_op o s) as -> by (destruct (env_raises env _); by injection E).
  split; [done|]. split; [done|]. by apply prefix_app_r.
Qed.

Lemma Keeps_call_bool o : Keeps n (call_bool env o).
Proof. apply Keeps_bind; [apply Keeps_call | intros; apply Keeps_gets]. Qed.

Lemma Keeps_unbind : Keeps n unbind.
Proof.
  intros s r s' Hn [= <- <-]. split; [done|]. split; [done|].
  by apply prefix_app_r.
Qed.

Lemma Keeps_connection_live : Keeps n (connection_live env).
Proof. apply Keeps_gets. Qed.

Lemma Keeps_connection_result : Keeps n (connection_result env).
Proof. apply Keeps_gets. Qed.

Lemma Keeps_response_to_json : Keeps n (response_to_json env).
Proof. apply Keeps_same_state. Qed.

Lemma Keeps_param_get param k : Keeps n (param_get param k).
Proof. unfold param_get. destruct (param !! k); [apply Keeps_ret | apply Keeps_raise]. Qed.

Lemma Keeps_str_split_strip v : Keeps n (str_split_strip v).
Proof. destruct v; first [apply Keeps_ret | apply Keeps_raise]. Qed.

Lemma Keeps_for_each {X} (xs : list X) (body : X → M unit) :
  (∀ x, Keeps n (body x)) → Keeps n (for_each xs body).
Proof.
  intros Hb. induction xs as [|x xs IH]; simpl; [apply Keeps_ret|].
  apply Keeps_bind; [apply Hb | by intros].
Qed.

Lemma Keeps_get_filtered_response : Keeps n (_get_filtered_response env).
Proof.
  intros s r s' Hn E. apply get_filtered_response_state in E as [-> _].
  by apply kept_refl.
Qed.

#[local] Hint Resolve Keeps_ret Keeps_raise Keeps_gets Keeps_lift
  Keeps_set_status Keeps_add_data Keeps_update_summary Keeps_summary_set
  Keeps_get_status Keeps_call Keeps_call_bool Keeps_unbind
  Keeps_connection_live Keeps_connection_result Keeps_response_to_json
  Keeps_param_get Keeps_str_split_strip Keeps_get_filtered_response : keeps.

(** A method keeps what came before it when its steps do. *)
Ltac keeps :=
  repeat first
    [ solve [eauto 2 with keeps nocore]
    | apply Keeps_add_action_result; intros ? ?
    | apply Keeps_try_catch; [|intros ?]
    | apply Keeps_for_each; intros ?
    | apply Keeps_bind; [|intros ?]
    | match goal with
      | |- Keeps _ (if ?b then _ else _) => destruct b
      | |- Keeps _ (match ?x with _ => _ end) => destruct x
      end ].

Lemma Keeps_ldap_bind_Some ar : (n ≤ ar)%nat → Keeps n (_ldap_bind env (Some ar)).
Proof.
  intros Har. unfold _ldap_bind. keeps.
  intros s r s' Hn [= <- <-]. by split_and!.
Qed.

Lemma Keeps_ldap_bind_None : Keeps n (_ldap_bind env None).
Proof.
  unfold _ldap_bind. keeps.
  intros s r s' Hn [= <- <-]. by split_and!.
Qed.

#[local] Hint Resolve Keeps_ldap_bind_Some Keeps_ldap_bind_None : keeps.

Lemma Keeps_get_root_dn : Keeps n (_get_root_dn env).
Proof. unfold _get_root_dn. keeps. Qed.

#[local] Hint Resolve Keeps_get_root_dn : keeps.

Lemma Keeps_query param : Keeps n (_query env param).
Proof. unfold _query. keeps. Qed.

#[local] Hint Resolve Keeps_query : keeps.

Lemma Keeps_sam_to_dn_Some sam ar :
  (n ≤ ar)%nat → Keeps n (_sam_to_dn env sam (Some ar)).
Proof. intros Har. unfold _sam_to_dn. keeps. Qed.

Lemma Keeps_sam_to_dn_None sam : Keeps n (_sam_to_dn env sam None).
Proof. unfold _sam_to_dn. keeps. Qed.

#[local] Hint Resolve Keeps_sam_to_dn_Some Keeps_sam_to_dn_None : keeps.

Lemma Keeps_handle_query param : Keeps n (_handle_query env param).
Proof. unfold _handle_query. keeps. Qed.

#[local] Hint Resolve Keeps_handle_query : keeps.

Lemma Keeps_handle_group_members param add :
  Keeps n (_handle_group_members env param add).
Proof.
  unfold _handle_group_members, resolve_members_groups, apply_group_members.
  keeps.
Qed.

Lemma Keeps_handle_unlock_account param :
  Keeps n (_handle_unlock_account env param).
Proof. unfold _handle_unlock_account. keeps. Qed.

Lemma Keeps_handle_account_status param disable :
  Keeps n (_handle_account_status env param disable).
Proof. unfold _handle_account_status. keeps. Qed.

Lemma Keeps_handle_move_object param : Keeps n (_handle_move_object env param).
Proof. unfold _handle_move_object. keeps. Qed.

Lemma Keeps_handle_test_connectivity param :
  Keeps n (_handle_test_connectivity env param).
Proof. unfold _handle_test_connectivity. keeps. Qed.

Lemma Keeps_handle_get_attributes param :
  Keeps n (_handle_get_attributes env param).
Proof. unfold _handle_get_attributes. keeps. Qed.

Lemma Keeps_handle_set_attribute param :
  Keeps n (_handle_set_attribute env param).
Proof. unfold _handle_set_attribute. keeps. Qed.

Lemma Keeps_handle_reset_password param :
  Keeps n (_handle_reset_password env param).
Proof. unfold _handle_reset_password. keeps. Qed.

Lemma Keeps_handle_action action_id param :
  Keeps n (handle_action env action_id param).
Proof.
  unfold handle_action.
  repeat (match goal with
          | |- Keeps _ (if ?b then _ else _) => destruct b
          end);
    eauto using Keeps_handle_test_connectivity, Keeps_handle_query,
      Keeps_handle_group_members, Keeps_handle_unlock_account,
      Keeps_handle_account_status, Keeps_handle_move_object,
      Keeps_handle_get_attributes, Keeps_handle_set_attribute,
      Keeps_handle_reset_password, Keeps_ret.
Qed.
End keeps_methods.

(** X1. Whatever the action, its parameters, the directory's behaviour and
    the outcome (a return or an exception): [handle_action] leaves every
    action result registered before it exactly as it was and only extends
    the history of calls. *)
Theorem handle_action_keeps_earlier_results (env : Env) (action_id : string)
    (param : gmap string PVal) (s : State) :
  action_results s
    `prefix_of` action_results (handle_action env action_id param s).2
  ∧ trace s `prefix_of` trace (handle_action env action_id param s).2.
Proof.
  destruct (handle_action env action_id param s) as [r s'] eqn:E.
  destruct (Keeps_handle_action env (length (action_results s)) action_id param
              s r s') as (_ & Ht & Hp); [done..|].
  split; [|done]. simpl. rewrite (take_ge (action_results s)) in Ht by lia.
  rewrite <- Ht. apply prefix_take.
Qed.

(** ** Binding *)

Section bind_facts.
Variable env : Env.

Lemma issued_app s s' ops : trace s' = trace s ++ ops → issued s s' = ops.
Proof. intros E. unfold issued. by rewrite E, drop_app_length. Qed.

(** X2. [_ldap_bind] never raises, with or without an action result, and
    gives the same answer either way; it calls session management only.  On
    a live connection it answers [True] and changes nothing, not even the
    action result's status; otherwise the status of the action result it was
    given is set to the answer. *)
Theorem ldap_bind_reports (action_result : option nat) (s : State) :
  ∃ b s',
    _ldap_bind env action_result s = (Ok b, s')
    ∧ (_ldap_bind env None s).1 = Ok b
    ∧ forallb is_conn_op (issued s s') = true
    ∧ (is_live env s = true → b = true ∧ s' = s)
    ∧ (is_live env s = false →
       ∀ ar r0, action_result = Some ar → action_results s !! ar = Some r0 →
         ∃ r1, action_results s' !! ar = Some r1
               ∧ ar_status r1 = Some b ∧ ar_data r1 = ar_data r0).
Proof.
  destruct s as [c l t].
  unfold _ldap_bind, is_live, bind, try_catch, connection_live,
    connection_result, gets, ret, call_bool, call, unbind, bind, gets,
    set_status, upd_ar, log_op.
  simpl.
  destruct (c && env_bound env t && negb (env_closed env t)) eqn:Hlive; simpl.
  { eexists _, _. split; [reflexivity|]. split; [done|].
    split; [by rewrite (issued_app _ _ [])by (by rewrite app_nil_r)|].
    split; [done|]. intros; discriminate. }
  destruct c; simpl;
    repeat (match goal with
            | |- context [match env_raises env ?t with _ => _ end] =>
                destruct (env_raises env t)
            | |- context [if negb (env_returns env ?t) then _ else _] =>
                destruct (env_returns env t)
            end; simpl);
    destruct action_result as [ar|]; simpl;
    (eexists _, _; split; [reflexivity|]; split; [reflexivity|];
     split;
     [ erewrite issued_app; [|simpl; rewrite <- ?app_assoc; reflexivity]; done
     | split; [intros; discriminate|];
       intros _ ar' r0 [= <-] Hr0; simpl;
       rewrite ?list_lookup_alter_eq, Hr0; simpl; eauto ]).
Qed.

(** X3. On a connection that is not live, [_ldap_bind] first releases the
    stale connection object if there is one, then makes the Server, the
    Connection and the bind call in that order, and stops exactly at the
    first of them that raises.  The connection object is replaced once the
    Connection call has returned.  The answer is [False] when a call raised,
    and otherwise what the bind call returned. *)
Theorem ldap_bind_rebuilds (action_result : option nat) (s : State) :
  is_live env s = false →
  let t0 := if ldap_connection s then trace s ++ [OpUnbind] else trace s in
  let t1 := t0 ++ [OpServer] in
  let t2 := t1 ++ [OpConnection] in
  let t3 := t2 ++ [OpBind] in
  let out := _ldap_bind env action_result s in
  match env_raises env t1, env_raises env t2, env_raises env t3 with
  | Some _, _, _ =>
      out.1 = Ok false ∧ trace out.2 = t1
      ∧ ldap_connection out.2 = ldap_connection s
  | None, Some _, _ =>
      out.1 = Ok false ∧ trace out.2 = t2
      ∧ ldap_connection out.2 = ldap_connection s
  | None, None, Some _ =>
      out.1 = Ok false ∧ trace out.2 = t3 ∧ ldap_connection out.2 = true
  | None, None, None =>
      out.1 = Ok (env_returns env t3) ∧ trace out.2 = t3
      ∧ ldap_connection out.2 = true
  end.
Proof.
  destruct s as [c l t].
  unfold _ldap_bind, is_live, bind, try_catch, connection_live,
    connection_result, gets, ret, call_bool, call, unbind, bind, gets,
    set_status, upd_ar, log_op.
  simpl. intros ->. simpl.
  destruct c; simpl;
    repeat (match goal with
            | |- context [match env_raises env ?t with _ => _ end] =>
                destruct (env_raises env t)
            | |- context [env_returns env ?t] =>
                destruct (env_returns env t)
            end; simpl);
    destruct action_result as [ar|]; done.
Qed.

End bind_facts.

(** ** Searching *)

Section query_facts.
Variable env : Env.

Lemma get_root_dn_step s :
  ∃ v s1 ops,
    _get_root_dn env s = (Ok v, s1)
    ∧ action_results s1 = action_results s
    ∧ trace s1 = trace s ++ ops ∧ forallb is_conn_op ops = true
    ∧ (v = PBool false ∨ ∃ d, v = PStr d ∧ bind_succeeds env s = true).
Proof.
  unfold _get_root_dn.
  destruct (ldap_bind_from env s s) as (s1 & Eb & Hres & _ & ops & Htr & Hops);
    [done..|].
  erewrite bind_Ok by exact Eb.
  destruct (bind_succeeds env s).
  - unfold gets. eexists _, s1, ops. split; [reflexivity|].
    split_and!; [done..|]. destruct (env_root_dn env (trace s1)); eauto.
  - eexists _, s1, ops. split; [reflexivity|]. split_and!; auto.
Qed.

(** What [_query] issues: session management, then at most one search. *)
Lemma query_issues (param : gmap string PVal) (s s' : State)
    (r : Res (list Entry)) :
  _query env param s = (r, s') →
  action_results s' = action_results s
  ∧ ∃ conn_ops,
      forallb is_conn_op conn_ops = true
      ∧ ((issued s s' = conn_ops ∧ ∃ e, r = Raise e)
         ∨ ∃ a filter base,
             param !! "attributes" = Some (PStr a)
             ∧ param !! "filter" = Some filter
             ∧ (∀ b, param !! "search_base" = Some b → base = b)
             ∧ issued s s' = conn_ops ++ [OpSearch base filter (split_strip a)]
             ∧ (∀ entries, r = Ok entries → env_json env (trace s') = Ok entries)).
Proof.
  intros E. unfold _query in E.
  assert (∀ e, (Raise e, s) = (r, s') →
            action_results s' = action_results s
            ∧ ∃ conn_ops, forallb is_conn_op conn_ops = true
                ∧ ((issued s s' = conn_ops ∧ ∃ e, r = Raise e)
                   ∨ ∃ a filter base,
                       param !! "attributes" = Some (PStr a)
                       ∧ param !! "filter" = Some filter
                       ∧ (∀ b, param !! "search_base" = Some b → base = b)
                       ∧ issued s s'
                         = conn_ops ++ [OpSearch base filter (split_strip a)]
                       ∧ (∀ entries, r = Ok entries →
                            env_json env (trace s') = Ok entries))) as Hearly.
  { intros e [= <- <-]. split; [done|]. exists []. split; [done|]. left.
    split; [by apply issued_app; rewrite app_nil_r | eauto]. }
  unfold param_get in E. unfold bind at 1 in E.
  destruct (param !! "attributes") as [av|] eqn:Ha; [|exact (Hearly _ E)].
  unfold ret at 1 in E. unfold bind at 1 in E.
  destruct av as [a| |]; try exact (Hearly _ E).
  simpl in E. unfold bind at 1 in E.
  destruct (param !! "filter") as [filter|] eqn:Hf; [|exact (Hearly _ E)].
  unfold ret at 1 in E.
  destruct (get_root_dn_step s) as (root & s1 & ops1 & Er & Hres1 & Htr1 & Hops1 & _).
  erewrite bind_Ok in E by exact Er. cbv zeta in E.
  destruct (ldap_bind_from env s1 s1) as (s2 & Eb & Hres2 & _ & ops2 & Htr2 & Hops2);
    [done..|].
  erewrite bind_Ok in E by exact Eb.
  assert (forallb is_conn_op (ops1 ++ ops2) = true) as Hops
    by (by rewrite forallb_app, Hops1, Hops2).
  destruct (bind_succeeds env s1); cbn [negb] in E.
  - unfold bind, call, response_to_json in E.
    set (op := OpSearch (default root (param !! "search_base")) filter
                 (split_strip a)) in *.
    assert (s' = log_op op s2) as ->.
    { destruct (env_raises env (trace (log_op op s2))); by injection E. }
    split; [simpl; congruence|]. exists (ops1 ++ ops2). split; [done|].
    right. exists a, filter, (default root (param !! "search_base")).
    split; [done|]. split; [done|]. split; [by intros b ->|]. split.
    + apply issued_app. simpl. by rewrite Htr2, Htr1, <- !app_assoc.
    + intros entries ->.
      destruct (env_raises env (trace (log_op op s2))); [discriminate|].
      by injection E.
  - injection E as <- <-. split; [congruence|]. exists (ops1 ++ ops2).
    split; [done|]. left. split; [|eauto].
    apply issued_app. by rewrite Htr2, Htr1, <- app_assoc.
Qed.


Lemma alter_new {X} (f : X → X) (l : list X) (x : X) :
  alter f (length l) (l ++ [x]) = l ++ [f x].
Proof. by rewrite <- (Nat.add_0_r (length l)), alter_app_r. Qed.

(** The filtered response is read off the connection and the history. *)
Lemma get_filtered_response_results l s :
  (_get_filtered_response env (with_results l s)).1
  = (_get_filtered_response env s).1.
Proof.
  destruct s as [c l0 t].
  unfold _get_filtered_response, try_catch, bind, connection_response, lift,
    ret, with_results.
  simpl. destruct c; [|done].
  destruct (env_response env t) as [items|]; [|done].
  by destruct (not_search_res_ref items).
Qed.

Lemma get_filtered_response_same s1 s2 :
  ldap_connection s1 = ldap_connection s2 → trace s1 = trace s2 →
  (_get_filtered_response env s1).1 = (_get_filtered_response env s2).1.
Proof.
  intros Hc Ht.
  rewrite <- (get_filtered_response_results (action_results s1) s2).
  f_equal. f_equal. destruct s1, s2. simpl in *. by subst.
Qed.

(** What [_handle_query] does, by what its [_query] call does. *)
Lemma handle_query_outcome (param : gmap string PVal) (s : State) :
  ∃ out s' r,
    _handle_query env param s = (out, s')
    ∧ action_results s' = action_results s ++ [r]
    ∧ ar_param r = param
    ∧ trace s' = trace (_query env param (query_entry param s)).2
    ∧ match (_query env param (query_entry param s)).1 with
      | Ok entries =>
          out = Ok (PRetVal true)
          ∧ ar_status r = Some true
          ∧ ar_data r = [DJson entries]
          ∧ ∃ l, (_get_filtered_response env s').1 = Ok l
                 ∧ ar_summary r !! "Total Records Found" = Some (SInt (length l))
      | Raise e =>
          out = Raise (AttributeError
                         "module 'ldap3' has no attribute 'LDAPSocketOpenError'")
          ∧ ar_status r = None ∧ ar_message r = "" ∧ ar_exception r = None
          ∧ ar_data r = []
      end.
Proof.
  unfold _handle_query.
  erewrite bind_Ok by reflexivity. erewrite bind_Ok by reflexivity.
  change (upd_ar _ _ _) with (query_entry param s).
  destruct (_query env param (query_entry param s)) as [[entries|e] s1] eqn:Eq;
    pose proof (query_issues _ _ _ _ Eq) as [Hres _];
    unfold query_entry in Hres; simpl in Hres; rewrite alter_new in Hres;
    unfold bind at 1, try_catch, bind at 1; rewrite Eq; simpl.
  - unfold bind at 1. simpl. unfold bind at 1.
    destruct (_get_filtered_response env _) as [rf sf] eqn:Ef.
    pose proof Ef as Ef'.
    apply get_filtered_response_state in Ef' as [-> [l ->]].
    eexists _, _, _. split; [reflexivity|]. simpl.
    rewrite Hres, !alter_new. split; [reflexivity|]. simpl.
    split; [done|]. split; [done|]. split; [done|]. split; [done|].
    split; [done|].
    exists l. split.
    + destruct s1 as [c1 l1 t1].
      apply (f_equal fst) in Ef. simpl in Ef. rewrite <- Ef.
      apply (get_filtered_response_same (mkState c1 _ t1) (mkState c1 _ t1));
        reflexivity.
    + by rewrite lookup_union_l', lookup_singleton_eq
        by (rewrite lookup_singleton_eq; eauto).
  - eexists _, _, _. split; [reflexivity|]. simpl.
    rewrite Hres. split; [reflexivity|]. done.
Qed.

(** X5. [_handle_query] registers exactly one action result, for the
    parameters it was given.  When the search returns, it returns
    [RetVal(APP_SUCCESS)]: the status is success, the data is the decoded
    response and the summary counts the items of the filtered response.
    When [_query] raises, whatever the fault, the first [except] clause
    looks up [ldap3.LDAPSocketOpenError], which the module does not export:
    an [AttributeError] leaves the handler, neither clause is entered, and
    the action result is left without status, message, exception or data. *)
Theorem handle_query_returns_or_raises (param : gmap string PVal) (s : State) :
  ∃ out s' r,
    _handle_query env param s = (out, s')
    ∧ action_results s' = action_results s ++ [r]
    ∧ ar_param r = param
    ∧ trace s' = trace (_query env param (query_entry param s)).2
    ∧ match (_query env param (query_entry param s)).1 with
      | Ok entries =>
          out = Ok (PRetVal true)
          ∧ ar_status r = Some true
          ∧ ar_data r = [DJson entries]
          ∧ ∃ l, (_get_filtered_response env s').1 = Ok l
                 ∧ ar_summary r !! "Total Records Found" = Some (SInt (length l))
      | Raise e =>
          out = Raise (AttributeError
                         "module 'ldap3' has no attribute 'LDAPSocketOpenError'")
          ∧ ar_status r = None ∧ ar_message r = "" ∧ ar_exception r = None
          ∧ ar_data r = []
      end.
Proof. apply handle_query_outcome. Qed.

(** X6. A query without its ['attributes'] or ['filter'] parameter fails
    before anything is asked of the directory: no bind is attempted and no
    search is issued.  The [KeyError] is not what the caller sees: the
    [AttributeError] of the first [except] clause leaves [_handle_query],
    and the action result registered for the query has no status and no
    message. *)
Theorem handle_query_missing_key (param : gmap string PVal) (s : State) :
  param !! "attributes" = None
  ∨ (∃ a, param !! "attributes" = Some (PStr a)) ∧ param !! "filter" = None →
  ∃ s' r key,
    (_query env param (query_entry param s)).1 = Raise (KeyError key)
    ∧ param !! key = None
    ∧ _handle_query env param s
      = (Raise (AttributeError
                  "module 'ldap3' has no attribute 'LDAPSocketOpenError'"),
         s')
    ∧ issued s s' = []
    ∧ action_results s' = action_results s ++ [r]
    ∧ ar_status r = None
    ∧ ar_message r = "".
Proof.
  intros H. unfold _handle_query.
  erewrite bind_Ok by reflexivity. erewrite bind_Ok by reflexivity.
  change (upd_ar _ _ _) with (query_entry param s).
  unfold bind at 1, try_catch, bind at 1, _query, param_get, bind at 1.
  destruct H as [Ha | [[a Ha] Hf]]; rewrite Ha; simpl.
  - eexists _, _, "attributes". split; [reflexivity|]. split; [done|].
    split; [reflexivity|]. simpl.
    rewrite !alter_new. split; [by apply issued_app; rewrite app_nil_r|].
    split; [reflexivity|]. done.
  - unfold bind at 1. rewrite Hf. simpl.
    eexists _, _, "filter". split; [reflexivity|]. split; [done|].
    split; [reflexivity|]. simpl.
    rewrite !alter_new. split; [by apply issued_app; rewrite app_nil_r|].
    split; [reflexivity|]. done.
Qed.

(** ** Resolution *)

Lemma found_records_resolved (r : list (PVal * option string)) :
  found_records r = length (resolved r).
Proof.
  unfold found_records, resolved.
  induction r as [|[k [d|]] r IH]; [done| |].
  - rewrite filter_cons_True by (simpl; eauto).
    rewrite length_cons, IH. reflexivity.
  - rewrite filter_cons_False by (simpl; by intros [? ?]).
    rewrite IH. reflexivity.
Qed.

Lemma sam_to_dn_trace sam action_result s :
  trace (_sam_to_dn env sam action_result s).2
  = trace (_query env (sam_param sam) s).2.
Proof.
  unfold _sam_to_dn, bind at 1.
  destruct (_query env (sam_param sam) s) as [[entries|e] s1]; [|done].
  unfold bind at 1, lift.
  destruct (sam_fill (dict_from_keys sam None) entries); [|done].
  by destruct action_result.
Qed.

(** A returned mapping comes from one returned search, and the summary is
    written to the action result passed in. *)
Lemma sam_to_dn_inv sam action_result s r s' :
  _sam_to_dn env sam action_result s = (Ok r, s') →
  ∃ entries s1,
    _query env (sam_param sam) s = (Ok entries, s1)
    ∧ sam_fill (dict_from_keys sam None) entries = Ok r
    ∧ s' = match action_result with
           | Some ar =>
               (update_summary ar
                  (<["requested records" := SInt (length sam)]>
                     (<["found records" := SInt (found_records r)]> ∅)) s1).2
           | None => s1
           end.
Proof.
  unfold _sam_to_dn. intros E.
  apply bind_inv_Ok in E as (entries & s1 & Eq & E).
  apply bind_inv_Ok in E as (r0 & s2 & Efill & E).
  apply bind_inv_Ok in E as (? & s3 & Esum & E).
  injection E as -> ->. injection Efill as Efill <-.
  exists entries, s1. split; [done|]. split; [done|].
  destruct action_result; by injection Esum.
Qed.

(** X7. [_sam_to_dn] makes a single round trip whatever the size of the
    batch: after session management it issues at most one search, for the
    OR-filter over all the identifiers and the two attributes it reads. *)
Theorem sam_to_dn_single_search (sam : list PVal) (action_result : option nat)
    (s : State) :
  ∃ conn_ops,
    forallb is_conn_op conn_ops = true
    ∧ (issued s (_sam_to_dn env sam action_result s).2 = conn_ops
       ∨ ∃ base,
           issued s (_sam_to_dn env sam action_result s).2
           = conn_ops ++ [OpSearch base (PStr (sam_filter sam))
                            ["distinguishedname"; "samaccountname"]]).
Proof.
  unfold issued at 1 2. rewrite sam_to_dn_trace.
  destruct (_query env (sam_param sam) s) as [rq s1] eqn:Eq.
  apply query_issues in Eq
    as (_ & ops & Hops & [[Hi _] | (a & f & base & Ha & Hf & _ & Hi & _)]).
  - exists ops. split; [done|]. by left.
  - exists ops. split; [done|]. right. exists base.
    unfold sam_param in Ha, Hf.
    rewrite lookup_insert_eq in Ha. injection Ha as <-.
    rewrite lookup_insert_ne, lookup_insert_eq in Hf by done.
    injection Hf as <-. exact Hi.
Qed.

(** When [_sam_to_dn] is given an action result and returns, that
    result's summary holds the number of identifiers requested, duplicates
    counted, and the number of entries of the mapping that are not [False];
    its status and data are not touched. *)
Lemma sam_to_dn_writes_summary (sam : list PVal) (ar : nat) (s s' : State)
    (r : list (PVal * option string)) (r0 : ActionResult) :
  action_results s !! ar = Some r0 →
  _sam_to_dn env sam (Some ar) s = (Ok r, s') →
  ∃ r1,
    action_results s' !! ar = Some r1
    ∧ ar_summary r1 !! "requested records" = Some (SInt (length sam))
    ∧ ar_summary r1 !! "found records" = Some (SInt (length (resolved r)))
    ∧ ar_status r1 = ar_status r0 ∧ ar_data r1 = ar_data r0.
Proof.
  intros Hr0 E. apply sam_to_dn_inv in E as (entries & s1 & Eq & _ & ->).
  apply query_issues in Eq as [Hres _]. simpl.
  rewrite list_lookup_alter_eq, Hres, Hr0. simpl.
  eexists. split; [reflexivity|]. simpl.
  rewrite <- found_records_resolved. split_and!; [| |done..].
  - by rewrite lookup_union_l' by (rewrite lookup_insert_eq; eauto);
      rewrite lookup_insert_eq.
  - rewrite lookup_union_l'
      by (rewrite lookup_insert_ne, lookup_insert_eq by done; eauto).
    by rewrite lookup_insert_ne, lookup_insert_eq.
Qed.

(** X8. When [_sam_to_dn] is given an action result and returns, that
    result's summary holds the number of identifiers requested, duplicates
    counted, and the number of entries of the mapping that are not [False];
    its status and data are not touched. *)
Theorem sam_to_dn_summary (sam : list PVal) (ar : nat) (s s' : State)
    (r : list (PVal * option string)) (r0 : ActionResult) :
  action_results s !! ar = Some r0 →
  _sam_to_dn env sam (Some ar) s = (Ok r, s') →
  ∃ r1,
    action_results s' !! ar = Some r1
    ∧ ar_summary r1 !! "requested records" = Some (SInt (length sam))
    ∧ ar_summary r1 !! "found records" = Some (SInt (length (resolved r)))
    ∧ ar_status r1 = ar_status r0 ∧ ar_data r1 = ar_data r0.
Proof. apply sam_to_dn_writes_summary. Qed.

(** X9. A group action that resolves identifiers writes the summary twice
    under the same keys: once both lists are resolved, the summary reports
    the number of groups requested and found, the members' numbers having
    been overwritten. *)
Theorem resolve_summary_reports_groups (ar : nat) (members groups : list string)
    (n_members n_groups : list string) (s s2 : State) (r0 : ActionResult) :
  action_results s !! ar = Some r0 →
  resolve_members_groups env ar members groups s = (Ok (n_members, n_groups), s2) →
  ∃ r2,
    action_results s2 !! ar = Some r2
    ∧ ar_summary r2 !! "requested records" = Some (SInt (length groups))
    ∧ ar_summary r2 !! "found records" = Some (SInt (length n_groups)).
Proof.
  intros Hr0 E. unfold resolve_members_groups in E.
  apply bind_inv_Ok in E as (t_users & s1 & E1 & E).
  apply bind_inv_Ok in E as (t_group & s2' & E2 & E).
  injection E as <- <- <-.
  destruct (sam_to_dn_writes_summary _ _ _ _ _ _ Hr0 E1) as (r1 & Hr1 & _).
  destruct (sam_to_dn_writes_summary _ _ _ _ _ _ Hr1 E2)
    as (r2 & Hr2 & Hq & Hf & _).
  exists r2. rewrite length_fmap in Hq. done.
Qed.

End query_facts.

(** ** More on the handlers *)

Section more_handler_facts.
Variable env : Env.

(** The bind at the head of a handler, in the goal. *)
Ltac head_bind s :=
  match goal with
  | |- context [bind (_ldap_bind env None) _ ?s0] =>
      let s1 := fresh "s1" in
      let Eb := fresh "Eb" in
      let Hres := fresh "Hres" in
      let Hs1 := fresh "Hs1" in
      let ops := fresh "ops" in
      let Htr := fresh "Htr" in
      let Hops := fresh "Hops" in
      destruct (ldap_bind_from env s0 s)
        as (s1 & Eb & Hres & Hs1 & ops & Htr & Hops); [done..|];
      erewrite bind_Ok by exact Eb
  end.

Lemma lookup_new {X} (l : list X) (x : X) : (l ++ [x]) !! length l = Some x.
Proof. by rewrite lookup_app_r, Nat.sub_diag. Qed.

(** X10. Without identifier resolution the group handler never raises and
    never searches: it returns [RetVal] of the status it has set.  When the
    bind fails that is an error and nothing else is called; when it succeeds
    the group-membership operation is attempted on the split parameters as
    they are (an empty parameter gives the one-element list of the empty
    string), and the status is success unless the operation raises. *)
Theorem group_members_without_resolution (param : gmap string PVal)
    (add : bool) (ms gs : string) (s : State) :
  param !! "members" = Some (PStr ms) →
  param !! "groups" = Some (PStr gs) →
  truthy (default (PBool false) (param !! "use_samaccountname")) = false →
  ∃ b s' r conn_ops,
    _handle_group_members env param add s = (Ok (PRetVal b), s')
    ∧ action_results s' !! length (action_results s) = Some r
    ∧ ar_status r = Some b
    ∧ forallb is_conn_op conn_ops = true
    ∧ if bind_succeeds env s
      then issued s s'
           = conn_ops ++ [group_op add (split_strip ms) (split_strip gs)]
           ∧ (b = true ↔ env_raises env (trace s') = None)
      else issued s s' = conn_ops ∧ b = false.
Proof.
  intros Hm Hg Ht. unfold _handle_group_members.
  erewrite bind_Ok by reflexivity. head_bind s.
  assert (action_results s1 !! length (action_results s)
          = Some (new_action_result param)) as Hr1.
  { rewrite Hres. apply lookup_new. }
  destruct (bind_succeeds env s); simpl.
  - erewrite bind_Ok by (by apply param_get_Some).
    erewrite bind_Ok by reflexivity.
    erewrite bind_Ok by (by apply param_get_Some).
    erewrite bind_Ok by reflexivity. rewrite Ht.
    destruct (apply_group_members_spec env _ add (split_strip ms)
                (split_strip gs) _ _ Hr1)
      as (b & s' & r1 & Eapp & Htr' & Hbr & Hr1' & Hst & _).
    exists b, s', r1, ops. split; [done|]. split; [done|]. split; [done|].
    split; [done|]. split; [|done].
    apply issued_app. by rewrite Htr', Htr, <- app_assoc.
  - erewrite bind_Ok by reflexivity.
    eexists false, _, _, ops. split; [reflexivity|]. simpl.
    rewrite list_lookup_alter_eq, Hr1. simpl. split; [reflexivity|].
    split; [done|]. split; [done|]. split; [|done]. by apply issued_app.
Qed.

(** X11. With identifier resolution requested, a fault raised while
    resolving (the search raising, a hit without the attributes read) is not
    caught by the group handler: the exception leaves the handler, the
    action result's status stays unset and no group-membership operation has
    been attempted. *)
Theorem group_members_resolution_fault (param : gmap string PVal) (add : bool)
    (ms gs : string) (e : Exn) (s s2 : State) :
  param !! "members" = Some (PStr ms) →
  param !! "groups" = Some (PStr gs) →
  truthy (default (PBool false) (param !! "use_samaccountname")) = true →
  bind_succeeds env s = true →
  resolve_members_groups env (length (action_results s))
    (split_strip ms) (split_strip gs) (group_members_entry env param s)
  = (Raise e, s2) →
  _handle_group_members env param add s = (Raise e, s2)
  ∧ (∀ o, o ∈ issued s s2 → is_group_op o = false)
  ∧ ∃ r, action_results s2 !! length (action_results s) = Some r
         ∧ ar_status r = None.
Proof.
  intros Hm Hg Ht Hb Hres. unfold _handle_group_members.
  erewrite bind_Ok by reflexivity. head_bind s. rewrite Hb. simpl.
  erewrite bind_Ok by (by apply param_get_Some).
  erewrite bind_Ok by reflexivity.
  erewrite bind_Ok by (by apply param_get_Some).
  erewrite bind_Ok by reflexivity. rewrite Ht.
  unfold group_members_entry in Hres. simpl in Hres.
  rewrite Eb in Hres. simpl in Hres.
  erewrite bind_Raise by exact Hres. split; [done|].
  pose proof (Quiet_resolve_members_groups env _ _ _ _ _ _ Hres)
    as [(ops2 & Htr2 & Hops2) HR].
  split.
  - erewrite issued_app by (by rewrite Htr2, Htr, <- app_assoc).
    intros o. apply session_ops_no_group.
    by rewrite forallb_app, conn_ops_session, Hops2.
  - assert (action_results s1 !! length (action_results s)
            = Some (new_action_result param)) as Hr1.
    { rewrite Hres0. apply lookup_new. }
    destruct (Forall2_lookup_l _ _ _ _ _ HR Hr1) as (r2 & Hr2 & Hsum).
    exists r2. split; [done|]. by destruct Hsum as (_ & -> & _).
Qed.

(** X12. When the bind succeeds and the password change does not raise,
    [reset_password] goes by what the call returned: the status, the
    recorded ["reset"] value and the returned [RetVal] are all that boolean,
    and the one operation issued after session management is the password
    change for the user. *)
Theorem reset_password_mirrors_return (param : gmap string PVal)
    (user pwd : PVal) (s : State) :
  param !! "user" = Some user →
  param !! "password" = Some pwd →
  bind_succeeds env s = true →
  env_raises env (trace (_ldap_bind env None s).2 ++ [OpModifyPassword user pwd])
  = None →
  ∃ b s' r conn_ops,
    _handle_reset_password env param s = (Ok (PRetVal b), s')
    ∧ b = env_returns env (trace s')
    ∧ issued s s' = conn_ops ++ [OpModifyPassword user pwd]
    ∧ forallb is_conn_op conn_ops = true
    ∧ action_results s' !! length (action_results s) = Some r
    ∧ ar_status r = Some b
    ∧ ar_data r = [DReset b].
Proof.
  intros Hu Hp Hb Hret. unfold _handle_reset_password.
  erewrite bind_Ok by reflexivity.
  do 2 erewrite bind_Ok by (by apply param_get_Some).
  head_bind s. rewrite Hb. simpl.
  unfold bind at 1, try_catch, call_bool, bind at 1, call. simpl.
  rewrite <- Hs1 in Hret. rewrite Hret. simpl.
  assert (action_results s1 !! length (action_results s)
          = Some (new_action_result param)) as Hr1.
  { rewrite Hres. apply lookup_new. }
  destruct (env_returns env (trace s1 ++ [OpModifyPassword user pwd])) eqn:Hr;
    simpl;
    (eexists _, _, _, ops; split; [reflexivity|]; simpl;
     rewrite Hr, !list_lookup_alter_eq, Hr1; simpl;
     split; [done|]; split; [by apply issued_app; simpl; rewrite Htr, <- app_assoc|];
     split; [done|]; split; [reflexivity|]; done).
Qed.

(** X13. For the actions ["ADD"], ["DELETE"] and ["REPLACE"], when the bind
    succeeds and the modify call returns, [set_attribute] issues one modify
    on the user with a one-entry change set of the matching kind holding the
    value, and ends with success status whatever the call returned, [False]
    included: the returned boolean only goes into the ["modified"] data
    value. *)
Theorem set_attribute_reports_success (param : gmap string PVal)
    (user attribute value : PVal) (action : string) (kind : ModKind)
    (s : State) :
  param !! "user" = Some user →
  param !! "attribute" = Some attribute →
  param !! "value" = Some value →
  param !! "action" = Some (PStr action) →
  (action, kind) ∈ [("ADD", MODIFY_ADD); ("DELETE", MODIFY_DELETE);
                    ("REPLACE", MODIFY_REPLACE)] →
  bind_succeeds env s = true →
  env_raises env
    (trace (_ldap_bind env None s).2
     ++ [OpModify user [(attribute, (kind, [value]))]])
  = None →
  ∃ s' r conn_ops,
    _handle_set_attribute env param s = (Ok (PRetVal true), s')
    ∧ issued s s'
      = conn_ops ++ [OpModify user [(attribute, (kind, [value]))]]
    ∧ forallb is_conn_op conn_ops = true
    ∧ action_results s' !! length (action_results s) = Some r
    ∧ ar_status r = Some true
    ∧ ar_data r = [DModified (env_returns env (trace s'))].
Proof.
  intros Hu Ha Hv Hact Hin Hb Hret. unfold _handle_set_attribute.
  erewrite bind_Ok by reflexivity.
  do 4 erewrite bind_Ok by (by apply param_get_Some).
  assert (set_attribute_changes (PStr action) attribute value
          = [(attribute, (kind, [value]))]) as ->.
  { rewrite !elem_of_cons, elem_of_nil in Hin.
    by destruct Hin as [[= -> ->]|[[= -> ->]|[[= -> ->]|[]]]]. }
  cbv zeta. head_bind s. rewrite Hb. simpl.
  unfold bind at 1, try_catch, bind at 1, call_bool, bind at 1, call. simpl.
  rewrite <- Hs1 in Hret. rewrite Hret. simpl.
  assert (action_results s1 !! length (action_results s)
          = Some (new_action_result param)) as Hr1.
  { rewrite Hres. apply lookup_new. }
  eexists _, _, ops.
  split; [reflexivity|]. simpl.
  rewrite !list_lookup_alter_eq, Hr1. simpl.
  split; [by apply issued_app; simpl; rewrite Htr, <- app_assoc|].
  split; [done|]. split; [reflexivity|]. done.
Qed.

(** X14. An action identifier that is none of the eleven the connector
    knows is answered with [APP_SUCCESS]: nothing is registered, nothing is
    called, the state is as it was. *)
Theorem handle_action_unknown (action_id : string) (param : gmap string PVal)
    (s : State) :
  action_id ∉ ["test_connectivity"; "query"; "add_group_members";
               "remove_group_members"; "unlock_account"; "disable_account";
               "enable_account"; "move_object"; "get_attributes";
               "set_attribute"; "reset_password"] →
  handle_action env action_id param s = (Ok (PStatus true), s).
Proof.
  intros Hnot. unfold handle_action.
  repeat (match goal with
          | |- context [String.eqb action_id ?x] =>
              destruct (String.eqb_spec action_id x) as [->|_];
                [exfalso; apply Hnot; set_solver|]
          end).
  done.
Qed.

(** X19. Given its two parameters, [move_object] never raises and never
    answers success; what it does is fixed by the bind, the parse of the
    identifier and the modify-DN call.  It returns nothing, with the status
    of its action result still unset, exactly when the modify-DN call was
    made, did not raise and returned [True].  In every other case it returns
    [RetVal(APP_ERROR)] with error status: on a failed bind and on an
    identifier that does not parse only session management has been called
    (the parse fault is the recorded exception); a modify-DN call that
    raises leaves its exception, and one that returns [False] leaves the
    connection's result as the message. *)
Theorem move_object_outcome (param : gmap string PVal) (obj new_ou : PVal)
    (s : State) :
  param !! "object" = Some obj →
  param !! "new_ou" = Some new_ou →
  ∃ out s' r conn_ops,
    _handle_move_object env param s = (Ok out, s')
    ∧ action_results s' = action_results s ++ [r]
    ∧ forallb is_conn_op conn_ops = true
    ∧ if bind_succeeds env s then
        match first_rdn env obj with
        | Raise e =>
            issued s s' = conn_ops
            ∧ out = PRetVal false ∧ ar_status r = Some false
            ∧ ar_exception r = Some e
        | Ok cn =>
            issued s s' = conn_ops ++ [OpModifyDn obj cn new_ou]
            ∧ match env_raises env (trace s') with
              | Some e =>
                  out = PRetVal false ∧ ar_status r = Some false
                  ∧ ar_exception r = Some e
              | None =>
                  if env_returns env (trace s') then
                    out = PNone ∧ ar_status r = None
                  else
                    out = PRetVal false ∧ ar_status r = Some false
                    ∧ ar_message r = env_result env (trace s')
              end
        end
      else
        issued s s' = conn_ops
        ∧ out = PRetVal false ∧ ar_status r = Some false.
Proof.
  intros Ho Hn. unfold _handle_move_object.
  erewrite bind_Ok by reflexivity.
  do 2 erewrite bind_Ok by (by apply param_get_Some).
  head_bind s. simpl in Hres.
  destruct (bind_succeeds env s); simpl.
  { unfold bind at 1, try_catch, bind at 1, lift.
    destruct (first_rdn env obj) as [cn|e] eqn:Hrdn.
    2:{ eexists _, _, _, ops. split; [reflexivity|]. simpl.
        rewrite Hres, alter_new. split; [reflexivity|]. simpl.
        split; [done|].
        erewrite issued_app by (simpl; by rewrite Htr). done. }
    unfold bind at 1, call_bool, bind at 1, call. simpl.
    destruct (env_raises env _) eqn:Hraise.
    { eexists _, _, _, ops. split; [reflexivity|]. simpl.
      rewrite Hres, alter_new. split; [reflexivity|]. simpl.
      split; [done|].
      erewrite issued_app by (simpl; by rewrite Htr, <- app_assoc).
      by rewrite Hraise. }
    unfold gets. simpl.
    destruct (env_returns env _) eqn:Hret; simpl.
    - eexists _, _, _, ops. split; [reflexivity|]. simpl.
      rewrite Hres. split; [reflexivity|]. simpl.
      split; [done|].
      erewrite issued_app by (simpl; by rewrite Htr, <- app_assoc).
      by rewrite Hraise, Hret.
    - eexists _, _, _, ops. split; [reflexivity|]. simpl.
      rewrite Hres, alter_new. split; [reflexivity|]. simpl.
      split; [done|].
      erewrite issued_app by (simpl; by rewrite Htr, <- app_assoc).
      by rewrite Hraise, Hret. }
  eexists _, _, _, ops. split; [reflexivity|]. simpl.
  rewrite Hres, alter_new. split; [reflexivity|]. simpl.
  split; [done|].
  erewrite issued_app by (simpl; by rewrite Htr). done.
Qed.

End more_handler_facts.


(** ** Unlocking and account status *)

Section account_facts.
Variable env : Env.

Lemma session_ops_no_unlock ops d :
  forallb is_session_op ops = true → OpUnlock d ∉ ops.
Proof.
  intros H Hin. apply list_elem_of_In in Hin.
  eapply forallb_forall in H; [|exact Hin]. done.
Qed.

Lemma query_session (param : gmap string PVal) (s s' : State)
    (r : Res (list Entry)) :
  _query env param s = (r, s') →
  action_results s' = action_results s
  ∧ ∃ ops, trace s' = trace s ++ ops ∧ forallb is_session_op ops = true.
Proof.
  intros E. pose proof (Quiet_query env param _ _ _ E) as [(ops & Htr & Hops) _].
  split; [by eapply query_issues|]. by exists ops.
Qed.

(** X15. With identifier resolution requested, [unlock_account] only ever
    unlocks an identifier the directory gave it: every unlock operation it
    issues is for the canonical identifier of a hit of its one search whose
    short-form name is the [user] parameter.  When it answers success, the
    unlock is the last operation issued, the status is success and the
    summary says ["Unlocked"]. *)
Theorem unlock_account_resolved (param : gmap string PVal) (user : PVal)
    (s s' : State) (out : Res PyRet) :
  param !! "user" = Some user →
  truthy (default (PBool false) (param !! "use_samaccountname")) = true →
  _handle_unlock_account env param s = (out, s') →
  (∀ d, OpUnlock d ∈ issued s s' →
     ∃ entries e name dn,
       (_query env (sam_param [user]) (query_entry param s)).1 = Ok entries
       ∧ e ∈ entries ∧ hit e name dn ∧ user = PStr name ∧ d = Some dn)
  ∧ (out = Ok (PRetVal true) →
     ∃ dn r,
       last (trace s') = Some (OpUnlock (Some dn))
       ∧ action_results s' !! length (action_results s) = Some r
       ∧ ar_status r = Some true
       ∧ ar_summary r !! "summary" = Some (SStr "Unlocked")).
Proof.
  intros Hu Ht E. unfold _handle_unlock_account in E.
  erewrite bind_Ok in E by reflexivity. erewrite bind_Ok in E by reflexivity.
  change (upd_ar _ _ _) with (query_entry param s) in E.
  erewrite bind_Ok in E by (by apply param_get_Some). rewrite Ht in E.
  unfold bind at 1 in E. unfold bind at 1 in E.
  assert (∀ s2 ops, trace s2 = trace s ++ ops →
            forallb is_session_op ops = true →
            ∀ d, OpUnlock d ∈ issued s s2 → False) as Hnone.
  { intros s2 ops E2 Hops d. rewrite (issued_app _ _ _ E2).
    by apply session_ops_no_unlock. }
  destruct (_sam_to_dn env [user] None (query_entry param s))
    as [[r|e] s1] eqn:Es.
  2:{ injection E as <- <-.
      pose proof (sam_to_dn_trace env [user] None (query_entry param s)) as Htr.
      rewrite Es in Htr. simpl in Htr.
      destruct (_query env (sam_param [user]) (query_entry param s))
        as [rq sq] eqn:Eq.
      apply query_session in Eq as [_ (ops & Hq & Hops)]. simpl in Htr.
      rewrite Hq in Htr.
      split; [|done]. intros d Hd. exfalso. by eapply Hnone. }
  apply sam_to_dn_inv in Es as (entries & s1' & Eq & Efill & ->).
  pose proof Eq as Eq'.
  apply query_session in Eq' as [Hres1 (ops & Hq & Hops)].
  change (trace (query_entry param s)) with (trace s) in Hq.
  destruct (length r =? 0)%nat.
  { cbv [bind set_status ret] in E. injection E as <- <-.
    split; [|done]. intros d Hd. exfalso. by eapply Hnone. }
  destruct (dict_get r user) as [[dn|]|] eqn:Hget.
  2:{ cbv [bind set_status ret] in E. injection E as <- <-.
      split; [|done]. intros d Hd. exfalso. by eapply Hnone. }
  2:{ cbv [bind raise] in E. injection E as <- <-.
      split; [|done]. intros d Hd. exfalso. by eapply Hnone. }
  assert (∃ e name, e ∈ entries ∧ hit e name dn ∧ user = PStr name)
    as (e & name & He & Hhit & Hname).
  { destruct (sam_fill_values _ _ _ _ _ Efill Hget) as [Hinit|H]; [|done].
    cbn [dict_from_keys foldl dict_set dict_get] in Hinit.
    by rewrite decide_True in Hinit. }
  simpl in E.
  destruct (ldap_bind_from env s1' s1')
    as (s2 & Eb & Hres2 & _ & bops & Hb & Hbops); [done..|].
  erewrite bind_Ok in E by exact Eb.
  assert (trace s2 = trace s ++ (ops ++ bops)) as Htr2.
  { by rewrite Hb, Hq, <- app_assoc. }
  assert (forallb is_session_op (ops ++ bops) = true) as Hops2.
  { by rewrite forallb_app, Hops, conn_ops_session. }
  destruct (bind_succeeds env s1'); simpl in E.
  2:{ cbv [bind set_status ret] in E. injection E as <- <-.
      split; [|done]. intros d Hd. exfalso. by eapply Hnone. }
  rewrite Hget in E.
  unfold bind at 1, try_catch, bind at 1, ret at 1, bind at 1, call in E.
  simpl in E.
  assert (∀ d, OpUnlock d ∈ (ops ++ bops) ++ [OpUnlock (Some dn)] →
            ∃ entries0 e0 name0 dn0,
              (_query env (sam_param [user]) (query_entry param s)).1
              = Ok entries0
              ∧ e0 ∈ entries0 ∧ hit e0 name0 dn0 ∧ user = PStr name0
              ∧ d = Some dn0) as Hone.
  { intros d [Hd|Hd]%elem_of_app.
    - exfalso. by eapply session_ops_no_unlock.
    - apply list_elem_of_singleton in Hd as [= ->].
      exists entries, e, name, dn. by rewrite Eq. }
  assert (action_results s2 !! length (action_results s)
          = Some (mkAR param None "" None [] ∅)) as Hr2.
  { rewrite Hres2, Hres1. unfold query_entry. simpl.
    rewrite alter_new. apply lookup_new. }
  destruct (env_raises env (trace s2 ++ [OpUnlock (Some dn)])) eqn:Hraise;
    cbv [bind set_status summary_set update_summary ret] in E;
    injection E as <- <-; simpl.
  - split; [|done]. intros d.
    erewrite issued_app by (simpl; by rewrite Htr2, <- app_assoc).
    apply Hone.
  - split.
    + intros d.
      erewrite issued_app by (simpl; by rewrite Htr2, <- app_assoc).
      apply Hone.
    + intros _. eexists dn, _. rewrite last_snoc. split; [done|].
      rewrite !list_lookup_alter_eq, Hr2. simpl. split; [reflexivity|].
      split; [done|]. simpl. by rewrite lookup_union_l', lookup_singleton_eq.
Qed.

(** X17. Given the [user] parameter, [_handle_account_status] never raises:
    it returns [RetVal] of the status it has set on its own action result.
    When the bind succeeds it has registered a second action result, the one
    of the inner query for the stored flags; when the bind fails, only its
    own.  It answers success only when the last call issued is the
    modification and that call returned [True]. *)
Theorem account_status_outcome (param : gmap string PVal) (disable : bool)
    (user : PVal) (s : State) :
  param !! "user" = Some user →
  ∃ b s' r,
    _handle_account_status env param disable s = (Ok (PRetVal b), s')
    ∧ action_results s' !! length (action_results s) = Some r
    ∧ ar_status r = Some b
    ∧ length (action_results s')
      = (length (action_results s) + if bind_succeeds env s then 2 else 1)%nat
    ∧ (b = true →
       ∃ o, last (trace s') = Some o ∧ is_modify_op o = true
            ∧ env_raises env (trace s') = None
            ∧ env_returns env (trace s') = true).
Proof.
  intros Hu. unfold _handle_account_status.
  erewrite bind_Ok by reflexivity.
  match goal with
  | |- context [bind (_ldap_bind env None) _ ?s0] =>
      destruct (ldap_bind_from env s0 s)
        as (s1 & Eb & Hres & _ & ops & Htr & Hops); [done..|];
      erewrite bind_Ok by exact Eb
  end.
  simpl in Hres.
  destruct (bind_succeeds env s); simpl.
  2:{ eexists false, _, _. split; [reflexivity|]. simpl.
      rewrite list_lookup_alter_eq, Hres, lookup_new. simpl.
      split; [reflexivity|]. split; [done|].
      rewrite length_alter, length_app. split; [done|]. done. }
  erewrite bind_Ok by (by apply param_get_Some).
  unfold bind at 1, try_catch, bind at 1.
  match goal with
  | |- context [_handle_query env ?p s1] =>
      destruct (handle_query_outcome env p s1)
        as (bq & s2 & rq & Eq & Hres2 & _)
  end.
  rewrite Eq.
  rewrite Hres in Hres2. rewrite <- app_assoc in Hres2. simpl in Hres2.
  assert (∀ f, alter f (length (action_results s)) (action_results s2)
               !! length (action_results s)
               = Some (f (new_action_result param))) as Halter.
  { intros f. rewrite list_lookup_alter_eq, Hres2.
    rewrite lookup_app_r, Nat.sub_diag by lia. done. }
  assert (∀ f, length (alter f (length (action_results s)) (action_results s2))
               = (length (action_results s) + 2)%nat) as Hlen.
  { intros f. rewrite length_alter, Hres2, length_app. done. }
  destruct bq as [rq0|eq0].
  2:{ eexists false, _, _. split; [reflexivity|]. simpl.
      rewrite Halter, Hlen. done. }
  unfold bind at 1.
  destruct (_get_filtered_response env s2) as [rf s2'] eqn:Ef.
  apply get_filtered_response_state in Ef as [-> [resp ->]].
  unfold bind at 1, lift.
  destruct (first_uac resp) as [uac|e].
  2:{ eexists false, _, _. split; [reflexivity|]. simpl.
      rewrite Halter, Hlen. done. }
  unfold bind at 1, call_bool, bind at 1, call. simpl.
  destruct (env_raises env _) eqn:Hraise.
  { eexists false, _, _. split; [reflexivity|]. simpl.
    rewrite Halter, Hlen. done. }
  unfold gets. simpl.
  destruct (env_returns env _) eqn:Hret; simpl.
  - eexists true, _, _. split; [reflexivity|]. simpl.
    rewrite Halter, Hlen. simpl. split; [reflexivity|]. split; [done|].
    split; [done|]. intros _. eexists. rewrite last_snoc.
    split; [reflexivity|]. by rewrite Hraise, Hret.
  - eexists false, _, _. split; [reflexivity|]. simpl.
    rewrite Halter, Hlen. done.
Qed.

End account_facts.

(** ** Reading attributes *)

Section attributes_facts.
Variable env : Env.

(** X16. When the bind succeeds and the search returns, [get_attributes]
    answers success: the one search it issues asks for the OR-filter over
    the principals (each matched as user principal name, short-form name or
    canonical identifier) and the attributes as split from the parameter;
    the data is the decoded response and the summary's ["total_objects"]
    counts the items of the filtered response, referrals left out. *)
Theorem get_attributes_outcome (param : gmap string PVal) (ps : string)
    (attrs : PVal) (entries : list Entry) (s s1 : State) :
  param !! "principals" = Some (PStr ps) →
  param !! "attributes" = Some attrs →
  bind_succeeds env s = true →
  _query env
    (<["filter" := PStr (attributes_filter (split_strip ps))]>
       (<["attributes" := attrs]> ∅))
    (_ldap_bind env None (query_entry param s)).2
  = (Ok entries, s1) →
  ∃ s' r found a base conn_ops,
    _handle_get_attributes env param s = (Ok (PRetVal true), s')
    ∧ attrs = PStr a
    ∧ issued s s'
      = conn_ops ++ [OpSearch base (PStr (attributes_filter (split_strip ps)))
                       (split_strip a)]
    ∧ forallb is_conn_op conn_ops = true
    ∧ action_results s' !! length (action_results s) = Some r
    ∧ ar_status r = Some true
    ∧ ar_data r = [DJson entries]
    ∧ (_get_filtered_response env s').1 = Ok found
    ∧ ar_summary r !! "total_objects" = Some (SInt (length found)).
Proof.
  intros Hp Ha Hb Eq. unfold _handle_get_attributes.
  erewrite bind_Ok by reflexivity. erewrite bind_Ok by reflexivity.
  change (upd_ar _ _ _) with (query_entry param s).
  destruct (ldap_bind_from env (query_entry param s) s)
    as (s0 & Eb & Hres & _ & ops & Htr & Hops); [done..|].
  erewrite bind_Ok by exact Eb. rewrite Eb in Eq. simpl in Eq.
  rewrite Hb. simpl.
  erewrite bind_Ok by (by apply param_get_Some).
  erewrite bind_Ok by reflexivity.
  erewrite bind_Ok by (by apply param_get_Some).
  cbv zeta. erewrite bind_Ok by exact Eq.
  erewrite bind_Ok by reflexivity.
  destruct (Quiet_query env _ _ _ _ Eq) as [(tail & Htail & _) _].
  apply query_issues in Eq
    as (Hres1 & qops & Hqops & [[_ [e [=]]] | (a & f & base & Hqa & Hqf & _ & Hi & _)]).
  rewrite lookup_insert_ne, lookup_insert_eq in Hqa by done.
  rewrite lookup_insert_eq in Hqf.
  injection Hqa as ->. injection Hqf as <-.
  rewrite (issued_app _ _ _ Htail) in Hi. subst tail.
  unfold bind at 1.
  destruct (_get_filtered_response env _) as [rf sf] eqn:Ef.
  pose proof Ef as Ef'.
  apply get_filtered_response_state in Ef' as [-> [found ->]].
  assert (action_results s1 !! length (action_results s)
          = Some (mkAR param None "" None [] ∅)) as Hr1.
  { rewrite Hres1, Hres. unfold query_entry. simpl.
    rewrite alter_new. apply lookup_new. }
  eexists _, _, found, a, base, (ops ++ qops).
  split; [reflexivity|]. split; [done|]. simpl.
  split.
  { apply issued_app. simpl. by rewrite Htail, Htr, <- !app_assoc. }
  split; [by rewrite forallb_app, Hops, Hqops|].
  rewrite !list_lookup_alter_eq, Hr1. simpl.
  split; [reflexivity|]. split; [done|]. split; [done|]. simpl.
  split.
  - erewrite get_filtered_response_same; [by rewrite Ef|done..].
  - by rewrite lookup_union_l', lookup_singleton_eq.
Qed.

End attributes_facts.

(** ** Test connectivity *)

Section connectivity_facts.
Variable env : Env.

(** X18. When no live connection exists, [test_connectivity] reports what
    the bind answers: it registers one action result for the parameters,
    calls session management only, and both the status of that result and
    the value returned are the bind's answer; it never raises. *)
Theorem test_connectivity_mirrors_bind (param : gmap string PVal) (s : State) :
  is_live env s = false →
  ∃ s' r,
    _handle_test_connectivity env param s
    = (Ok (PStatus (bind_succeeds env s)), s')
    ∧ forallb is_conn_op (issued s s') = true
    ∧ action_results s' = action_results s ++ [r]
    ∧ ar_param r = param
    ∧ ar_status r = Some (bind_succeeds env s)
    ∧ ar_data r = [].
Proof.
  destruct s as [c l t]. unfold is_live. simpl. intros Hlive.
  unfold _handle_test_connectivity, bind_succeeds, _ldap_bind, bind,
    try_catch, connection_live, connection_result, gets, ret, call_bool, call,
    unbind, bind, gets, add_action_result, get_status, set_status, upd_ar,
    log_op, issued.
  simpl. rewrite Hlive. simpl.
  repeat (match goal with
          | |- context [env_raises env ?x] => destruct (env_raises env x)
          | |- context [env_returns env ?x] => destruct (env_returns env x)
          | |- context [if c then _ else _] => destruct c
          end; simpl);
    rewrite ?list_lookup_alter_eq, ?lookup_new; simpl;
    rewrite ?list_alter_alter_eq, ?alter_new;
    (eexists _, _; split; [reflexivity|]; simpl;
     rewrite ?drop_app_length, <- ?app_assoc, ?drop_app_length;
     split; [reflexivity|]; split; [reflexivity|]; done).
Qed.

End connectivity_facts.

(** ** The root naming context *)

Section root_dn_facts.
Variable env : Env.

(** X20. [_get_root_dn] never raises and calls session management only: it
    answers [False] when the bind fails, and when the bind succeeds the
    server's default naming context, or [False] when that cannot be read. *)
Theorem get_root_dn_outcome (s : State) :
  ∃ v s',
    _get_root_dn env s = (Ok v, s')
    ∧ forallb is_conn_op (issued s s') = true
    ∧ action_results s' = action_results s
    ∧ v = if bind_succeeds env s
          then match env_root_dn env (trace s') with
               | Some d => PStr d
               | None => PBool false
               end
          else PBool false.
Proof.
  unfold _get_root_dn.
  destruct (ldap_bind_from env s s) as (s1 & Eb & Hres & _ & ops & Htr & Hops);
    [done..|].
  erewrite bind_Ok by exact Eb.
  destruct (bind_succeeds env s).
  - unfold gets. eexists _, s1. split; [reflexivity|].
    by rewrite (issued_app _ _ _ Htr).
  - eexists _, s1. split; [reflexivity|].
    by rewrite (issued_app _ _ _ Htr).
Qed.

End root_dn_facts.

(** ** The account-control flag and the list parameters *)

Lemma mask_high_bits i : 32 ≤ i → Z.testbit (Z.lxor 0xFFFFFFFF 0x02) i = false.
Proof.
  intros Hi. apply Z.bits_above_log2; [done|].
  change (Z.log2 (Z.lxor 0xFFFFFFFF 0x02)) with 31. lia.
Qed.

(** X21. Whatever integer is stored, bit 1 of the value written is set by
    [disable_account] and clear after [enable_account]; applying the same
    change twice writes the same value as applying it once; and the value
    [enable_account] writes always fits in 32 bits, so for a stored value
    that is negative or has higher bits set those bits are dropped. *)
Theorem mod_uac_flag (disable : bool) (uac : Z) :
  Z.testbit (mod_uac disable uac) 1 = disable
  ∧ mod_uac disable (mod_uac disable uac) = mod_uac disable uac
  ∧ 0 ≤ mod_uac false uac < 2 ^ 32.
Proof.
  split; [|split].
  - destruct disable; unfold mod_uac.
    + rewrite Z.lor_spec. apply orb_true_r.
    + rewrite Z.land_spec. apply andb_false_r.
  - destruct disable; unfold mod_uac.
    + by rewrite <- Z.lor_assoc, Z.lor_diag.
    + by rewrite <- Z.land_assoc, Z.land_diag.
  - unfold mod_uac.
    assert (Z.land uac (Z.lxor 0xFFFFFFFF 0x02)
            = Z.land uac (Z.lxor 0xFFFFFFFF 0x02) mod 2 ^ 32) as ->.
    { apply Z.bits_inj'. intros i Hi.
      destruct (Z.lt_ge_cases i 32) as [Hlow|Hhigh].
      - by rewrite Z.mod_pow2_bits_low.
      - rewrite Z.mod_pow2_bits_high by lia.
        rewrite Z.land_spec, mask_high_bits by done. apply andb_false_r. }
    apply Z.mod_pos_bound. lia.
Qed.

Lemma split_nonempty sep s : split sep s ≠ [].
Proof.
  destruct s as [|c s]; simpl; [done|].
  destruct (Ascii.eqb c sep); [done|]. by destruct (split sep s).
Qed.

(** X22. Splitting a parameter at [';'] loses nothing and never gives the
    empty list: the pieces joined with the separator are the string again,
    there is one piece more than there are separators, no piece contains
    the separator, and stripping the pieces keeps their number.  The empty
    string gives the one-element list of the empty string. *)
Theorem split_join (sep : ascii) (s : string) :
  String.concat (String sep "") (split sep s) = s
  ∧ length (split sep s)
    = S (count_occ ascii_dec (String.list_ascii_of_string s) sep)
  ∧ Forall (λ w, count_occ ascii_dec (String.list_ascii_of_string w) sep = 0%nat)
           (split sep s)
  ∧ length (split_strip s) = length (split ";" s)
  ∧ split_strip "" = [""].
Proof.
  split_and!; [| | |by unfold split_strip; rewrite length_fmap|done].
  - induction s as [|c s IH]; [done|]. simpl.
    destruct (Ascii.eqb c sep) eqn:Hc.
    + apply Ascii.eqb_eq in Hc as ->.
      pose proof (split_nonempty sep s) as Hne.
      simpl. destruct (split sep s); [done|]. by rewrite IH.
    + pose proof (split_nonempty sep s) as Hne.
      destruct (split sep s) as [|w ws]; [done|].
      destruct ws as [|w' ws]; simpl in *; by rewrite <- IH.
  - induction s as [|c s IH]; [done|]. simpl.
    destruct (Ascii.eqb c sep) eqn:Hc.
    + apply Ascii.eqb_eq in Hc as ->. simpl. rewrite IH.
      by destruct (ascii_dec sep sep).
    + apply Ascii.eqb_neq in Hc.
      pose proof (split_nonempty sep s) as Hne.
      destruct (split sep s) as [|w ws]; [done|]. simpl in *.
      by destruct (ascii_dec c sep).
  - induction s as [|c s IH]; [by constructor|]. simpl.
    destruct (Ascii.eqb c sep) eqn:Hc.
    + by constructor.
    + apply Ascii.eqb_neq in Hc.
      pose proof (split_nonempty sep s) as Hne.
      destruct (split sep s) as [|w ws]; [done|].
      apply Forall_cons in IH as [Hw Hws]. constructor; [|done].
      simpl. by destruct (ascii_dec c sep).
Qed.

(** ** The further properties on sample directories *)

Lemma ldap_bind_rebuilds_witness :
  (_ldap_bind unreachable_env None bound_state).1 = Ok false
  ∧ trace (_ldap_bind unreachable_env None bound_state).2
    = [OpServer; OpConnection; OpBind; OpUnbind; OpServer; OpConnection; OpBind]
  ∧ ldap_connection (_ldap_bind unreachable_env None bound_state).2 = true.
Proof. apply (ldap_bind_rebuilds unreachable_env None bound_state). reflexivity. Defined.

Lemma handle_query_missing_key_witness :
  ∃ s',
    _handle_query quiet_env ∅ initialize
    = (Raise (AttributeError
                "module 'ldap3' has no attribute 'LDAPSocketOpenError'"),
       s')
    ∧ issued initialize s' = [].
Proof.
  destruct (handle_query_missing_key quiet_env ∅ initialize)
    as (s' & r & key & _ & _ & E & Hi & _); [by left|].
  by exists s'.
Defined.

Lemma sam_to_dn_summary_witness :
  ∃ r1,
    action_results
      (_sam_to_dn directory_env [PStr "alice"; PStr "bob"] (Some 0%nat)
         (add_action_result unlock_param initialize).2).2 !! 0%nat
    = Some r1
    ∧ ar_summary r1 !! "requested records" = Some (SInt 2)
    ∧ ar_summary r1 !! "found records" = Some (SInt 1).
Proof.
  edestruct (sam_to_dn_summary directory_env [PStr "alice"; PStr "bob"] 0)
    with (s := (add_action_result unlock_param initialize).2)
    as (r1 & H1 & Hreq & Hfound & _);
    [vm_compute; reflexivity | vm_compute; reflexivity |].
  exists r1. split; [exact H1|]. split; [exact Hreq | exact Hfound].
Defined.

Lemma resolve_summary_reports_groups_witness :
  ∃ r2,
    action_results
      (resolve_members_groups directory_env 0 ["alice"; "bob"] ["g1"]
         (add_action_result partial_param initialize).2).2 !! 0%nat
    = Some r2
    ∧ ar_summary r2 !! "requested records" = Some (SInt 1)
    ∧ ar_summary r2 !! "found records" = Some (SInt 1).
Proof.
  edestruct (resolve_summary_reports_groups directory_env 0 ["alice"; "bob"]
               ["g1"])
    with (s := (add_action_result partial_param initialize).2)
    as (r2 & H2 & Hreq & Hfound);
    [vm_compute; reflexivity | vm_compute; reflexivity |].
  exists r2. split; [exact H2|]. split; [exact Hreq | exact Hfound].
Defined.

Lemma group_members_without_resolution_witness :
  ∃ b s' r conn_ops,
    _handle_group_members quiet_env pairs_param false initialize
    = (Ok (PRetVal b), s')
    ∧ action_results s' !! 0%nat = Some r
    ∧ ar_status r = Some b
    ∧ issued initialize s'
      = conn_ops ++ [OpRemoveMembers ["CN=A,DC=x"; "CN=B,DC=x"]
                       ["CN=G1,DC=x"; "CN=G2,DC=x"; "CN=G3,DC=x"]].
Proof.
  destruct (group_members_without_resolution quiet_env pairs_param false
              "CN=A,DC=x; CN=B,DC=x" "CN=G1,DC=x;CN=G2,DC=x;CN=G3,DC=x"
              initialize)
    as (b & s' & r & conn_ops & E & Hr & Hst & _ & Hi & _);
    [reflexivity..|].
  by exists b, s', r, conn_ops.
Defined.

Lemma group_members_resolution_fault_witness :
  (_handle_group_members rejecting_env partial_param true initialize).1
  = Raise (LDAPException "operation rejected").
Proof.
  edestruct (group_members_resolution_fault rejecting_env partial_param true
               "alice;bob" "g1")
    with (s := initialize) as (E & _);
    [reflexivity | reflexivity | reflexivity | reflexivity
     | vm_compute; reflexivity |].
  by rewrite E.
Defined.

Lemma reset_password_mirrors_return_witness :
  ∃ s', _handle_reset_password quiet_env reset_param initialize
        = (Ok (PRetVal true), s').
Proof.
  destruct (reset_password_mirrors_return quiet_env reset_param
              (PStr "CN=Alice,OU=Old,DC=x") (PStr "s3cret") initialize)
    as (b & s' & r & conn_ops & E & -> & _); [reflexivity..|].
  by exists s'.
Defined.

Lemma set_attribute_reports_success_witness :
  ∃ s' conn_ops,
    _handle_set_attribute quiet_env (set_attribute_param "DELETE") initialize
    = (Ok (PRetVal true), s')
    ∧ issued initialize s'
      = conn_ops ++ [OpModify (PStr "CN=Alice,OU=Old,DC=x")
                       [(PStr "mail", (MODIFY_DELETE, [PStr "alice@x"]))]].
Proof.
  destruct (set_attribute_reports_success quiet_env
              (set_attribute_param "DELETE") (PStr "CN=Alice,OU=Old,DC=x")
              (PStr "mail") (PStr "alice@x") "DELETE" MODIFY_DELETE initialize)
    as (s' & r & conn_ops & E & Hi & _);
    [reflexivity | reflexivity | reflexivity | reflexivity
     | set_solver | reflexivity | reflexivity |].
  by exists s', conn_ops.
Defined.

Lemma handle_action_unknown_witness :
  handle_action quiet_env "list_users" ∅ bound_state
  = (Ok (PStatus true), bound_state).
Proof.
  apply handle_action_unknown.
  apply (bool_decide_unpack _). vm_compute. reflexivity.
Defined.

Lemma unlock_account_resolved_witness :
  ∃ dn,
    last (trace (_handle_unlock_account directory_env
                   (<["use_samaccountname" := PBool true]> unlock_param)
                   initialize).2)
    = Some (OpUnlock (Some dn)).
Proof.
  edestruct (unlock_account_resolved directory_env
               (<["use_samaccountname" := PBool true]> unlock_param)
               (PStr "alice"))
    with (s := initialize) as (_ & Hok);
    [reflexivity | reflexivity | vm_compute; reflexivity |].
  destruct (Hok eq_refl) as (dn & r & Hlast & _).
  exists dn. exact Hlast.
Defined.

Lemma get_attributes_outcome_witness :
  ∃ s',
    _handle_get_attributes directory_env attributes_param initialize
    = (Ok (PRetVal true), s').
Proof.
  edestruct (get_attributes_outcome directory_env attributes_param "alice"
               (PStr "mail;samaccountname"))
    with (s := initialize)
    as (s' & r & found & a & base & conn_ops & E & _);
    [reflexivity | reflexivity | reflexivity | vm_compute; reflexivity |].
  by exists s'.
Defined.

Lemma account_status_outcome_witness :
  ∃ b s',
    _handle_account_status (account_env 512)
      {[ "user" := PStr "CN=Alice,OU=Old,DC=x" ]} true initialize
    = (Ok (PRetVal b), s')
    ∧ length (action_results s') = 2%nat.
Proof.
  destruct (account_status_outcome (account_env 512)
              {[ "user" := PStr "CN=Alice,OU=Old,DC=x" ]} true
              (PStr "CN=Alice,OU=Old,DC=x") initialize)
    as (b & s' & r & E & _ & _ & Hlen & _); [reflexivity|].
  by exists b, s'.
Defined.

Lemma test_connectivity_mirrors_bind_witness :
  ∃ s',
    _handle_test_connectivity unreachable_env ∅ initialize
    = (Ok (PStatus false), s').
Proof.
  destruct (test_connectivity_mirrors_bind unreachable_env ∅ initialize)
    as (s' & r & E & _); [reflexivity|].
  by exists s'.
Defined.

Lemma move_object_outcome_witness :
  ∃ s' r,
    _handle_move_object rejecting_env move_param initialize
    = (Ok (PRetVal false), s')
    ∧ action_results s' = [r]
    ∧ ar_exception r = Some (LDAPException "operation rejected").
Proof.
  destruct (move_object_outcome rejecting_env move_param
              (PStr "CN=Alice,OU=Old,DC=x") (PStr "OU=New,DC=x") initialize)
    as (out & s' & r & conn_ops & E & Hr & _ & H); [reflexivity | reflexivity|].
  change (bind_succeeds rejecting_env initialize) with true in H.
  change (first_rdn rejecting_env (PStr "CN=Alice,OU=Old,DC=x"))
    with (@Ok string "CN=Alice") in H.
  cbv iota in H. destruct H as [Hi H].
  assert (trace s'
          = [OpServer; OpConnection; OpBind;
             OpModifyDn (PStr "CN=Alice,OU=Old,DC=x") "CN=Alice"
               (PStr "OU=New,DC=x")]) as Ht
    by (by injection E as _ <-).
  rewrite Ht in H. destruct H as (-> & _ & He).
  by exists s', r.
Defined.
